(** * SW-AUTO: the two maintenance scripts, embedded and verified

    [apply_rect_fix.py] rewrites one block of [SwAutomationApp/test1.cs];
    [show_lines.py] prints the lines around the first line that mentions
    [FullyDefineSketch].

    Both scripts are straight-line Python over [str] values, one file and
    the console.  The embedding keeps that shape:

    - a [str] is the list of its Unicode code points;
    - the file store maps a path to what is on disk: the characters the
      file's bytes decode to, line endings as they are stored, or the
      fact that the bytes do not decode;
    - [Path.read_text] decodes and reads CR LF and a lone CR as LF
      (universal newlines); [Path.write_text] writes every LF as the line
      separator of the platform, LF on POSIX and CR LF on Windows;
    - the console is the list of the strings handed to [print];
    - an exception ends the run and keeps what was written and printed
      before it.

    The codec itself stays below the model: a text that was decoded, with
    the ASCII blocks of the script spliced in, is taken to encode.

    The scripts fix the path, the old and new blocks and the marker as
    literals; the functions [patch] and [findContext] take them as
    arguments and the scripts are their instances at those literals. *)

From Stdlib Require Import ZArith NArith Lia DecimalString.
From stdpp Require Import gmap strings list.

Local Open Scope Z_scope.
Local Open Scope nat_scope.

(** ** Strings *)

Abbreviation char := N (only parsing).
Abbreviation str := (list N) (only parsing).

(** A literal of the source, as code points. *)
Definition lit (s : string) : str :=
  (fun a => Ascii.N_of_ascii a) <$> String.list_ascii_of_string s.

Definition LF : char := 10%N.
Definition CR : char := 13%N.

(** [startswith p t]: [t] begins with [p] (the comparison the substring
    search performs at one offset). *)
Fixpoint startswith (p t : str) : bool :=
  match p, t with
  | [], _ => true
  | _ :: _, [] => false
  | a :: p', b :: t' => (a =? b)%N && startswith p' t'
  end.

(** [str.find]: the lowest offset at which [sub] occurs in [text];
    [None] stands for Python's [-1]. *)
Fixpoint find (sub text : str) : option nat :=
  if startswith sub text then Some 0
  else match text with
       | [] => None
       | _ :: t => S <$> find sub t
       end.

(** [sub in text]. *)
Definition contains (sub text : str) : bool :=
  match find sub text with Some _ => true | None => false end.

(** [text.replace(old, new, 1)]: the leftmost occurrence is cut out and
    [new] spliced in; a text without occurrence is returned as it is. *)
Definition replace1 (old new text : str) : str :=
  match find old text with
  | Some i => take i text ++ new ++ drop (i + length old) text
  | None => text
  end.

(** ** Runs: file store, console, exceptions *)

Inductive exn : Type :=
| SystemExit (msg : str)
| IndexError
| FileNotFoundError (path : string)
| UnicodeDecodeError.

(** What is on disk under a path: the characters its bytes decode to, or
    bytes that the codec of [read_text] rejects. *)
Inductive content : Type :=
| Chars (raw : str)
| Undecodable.

(** The platform, as far as the scripts can tell: [os.linesep]. *)
Inductive os : Type := Posix | Windows.

Definition linesep (sys : os) : str :=
  match sys with Posix => [LF] | Windows => [CR; LF] end.

Record world : Type := World {
  files : gmap string content;
  stdout : list str
}.

Inductive result (A : Type) : Type :=
| Ok (a : A)
| Raise (e : exn).
Arguments Ok {A} a.
Arguments Raise {A} e.

Definition M (A : Type) : Type := world -> result A * world.

#[export] Instance M_ret : MRet M := fun A a w => (Ok a, w).

(** Sequencing: an exception skips the rest and keeps the world it left. *)
#[export] Instance M_bind : MBind M := fun A B k m w =>
  match m w with
  | (Ok a, w') => k a w'
  | (Raise e, w') => (Raise e, w')
  end.

Definition raise {A} (e : exn) : M A := fun w => (Raise e, w).

(** Reading in text mode with [newline=None]: CR LF and a lone CR come
    out as LF. *)
Fixpoint universal_newlines (raw : str) : str :=
  match raw with
  | [] => []
  | c :: t =>
      if (c =? CR)%N then
        LF :: match t with
              | c' :: t' =>
                  if (c' =? LF)%N then universal_newlines t'
                  else universal_newlines t
              | [] => []
              end
      else c :: universal_newlines t
  end.

(** Writing in text mode with [newline=None]: every LF goes out as
    [os.linesep]. *)
Fixpoint to_disk (sys : os) (text : str) : str :=
  match text with
  | [] => []
  | c :: t => (if (c =? LF)%N then linesep sys else [c]) ++ to_disk sys t
  end.

(** [Path(path).read_text()] *)
Definition read_text (path : string) : M str :=
  fun w => match files w !! path with
           | Some (Chars raw) => (Ok (universal_newlines raw), w)
           | Some Undecodable => (Raise UnicodeDecodeError, w)
           | None => (Raise (FileNotFoundError path), w)
           end.

(** [Path(path).write_text(text)]: the whole content is overwritten. *)
Definition write_text (sys : os) (path : string) (text : str) : M unit :=
  fun w => (Ok tt, World (<[path := Chars (to_disk sys text)]> (files w)) (stdout w)).

(** [print(s)] *)
Definition print (s : str) : M unit :=
  fun w => (Ok tt, World (files w) (stdout w ++ [s])).

(** ** apply_rect_fix.py *)

Definition pattern_not_found : str := lit "pattern not found".

(** Lines 3, 6-8 of the script, with the path and the two blocks as
    arguments; [sys] is the platform the script runs on. *)
Definition patch (sys : os) (path : string) (old new : str) : M unit :=
  text ← read_text path;
  if negb (contains old text) then raise (SystemExit pattern_not_found)
  else write_text sys path (replace1 old new text).

Definition target : string := "SwAutomationApp/test1.cs".

Definition old_block : str :=
  lit "            swSketchManager.FullyDefineSketch(true, true," ++ [LF] ++
  lit "                (int)swSketchFullyDefineRelationType_e.swSketchFullyDefineRelationType_Horizontal |" ++ [LF] ++
  lit "                (int)swSketchFullyDefineRelationType_e.swSketchFullyDefineRelationType_Vertical," ++ [LF] ++
  lit "                true, 1, null, 1, null, 1, 1);" ++ [LF].

Definition new_block : str :=
  lit "            swSketchManager.FullyDefineSketch(true, true," ++ [LF] ++
  lit "                (int)swSketchFullyDefineRelationType_e.swSketchFullyDefineRelationType_Horizontal |" ++ [LF] ++
  lit "                (int)swSketchFullyDefineRelationType_e.swSketchFullyDefineRelationType_Vertical |" ++ [LF] ++
  lit "                (int)swSketchFullyDefineRelationType_e.swSketchFullyDefineRelationType_Distance," ++ [LF] ++
  lit "                true, 1, null, 1, null, 1, 1);" ++ [LF].

Definition apply_rect_fix (sys : os) : M unit :=
  patch sys target old_block new_block.

(** ** show_lines.py *)

(** The line boundaries of [str.splitlines]: LF, VT, FF, CR, FS, GS, RS,
    NEL, LINE SEPARATOR and PARAGRAPH SEPARATOR. *)
Definition is_linebreak (c : char) : bool :=
  existsb (N.eqb c) [10; 11; 12; 13; 28; 29; 30; 133; 8232; 8233]%N.

(** [text.splitlines()]: the boundaries are dropped, CR LF counts as one
    boundary, and a final boundary opens no empty last line.  [cur] holds
    the characters of the line being read, last one first. *)
Fixpoint splitlines_from (cur t : str) : list str :=
  match t with
  | [] => match cur with [] => [] | _ :: _ => [reverse cur] end
  | c :: t' =>
      if is_linebreak c then
        reverse cur ::
          match t' with
          | c' :: t'' =>
              if (c =? CR)%N && (c' =? LF)%N then splitlines_from [] t''
              else splitlines_from [] t'
          | [] => splitlines_from [] t'
          end
      else splitlines_from (c :: cur) t'
  end.

Definition splitlines (text : str) : list str := splitlines_from [] text.

(** [lines[j]]: a negative index counts from the end; an index outside
    the list raises. *)
Definition wrap_index (n j : Z) : Z :=
  if (j <? 0)%Z then (j + n)%Z else j.

Definition getitem (lines : list str) (j : Z) : M str :=
  let n := Z.of_nat (length lines) in
  let k := wrap_index n j in
  if (k <? 0)%Z || (n <=? k)%Z then raise IndexError
  else match lines !! Z.to_nat k with
       | Some line => mret line
       | None => raise IndexError
       end.

(** [range(a, b)] *)
Definition range (a b : Z) : list Z :=
  (fun k => (a + Z.of_nat k)%Z) <$> seq 0 (Z.to_nat (b - a)).

(** [for x in xs: body(x)] *)
Fixpoint for_each {A} (xs : list A) (body : A -> M unit) : M unit :=
  match xs with
  | [] => mret tt
  | x :: xs' => body x;; for_each xs' body
  end.

Definition digits (n : N) : str :=
  lit (NilZero.string_of_uint (N.to_uint n)).

(** [format(z, "04d")]: the sign if any, then zeros up to a total width
    of four, then the decimal digits. *)
Definition format_04d (z : Z) : str :=
  let sign := if (z <? 0)%Z then lit "-" else [] in
  let ds := digits (Z.abs_N z) in
  sign ++ replicate (4 - length sign - length ds) 48%N ++ ds.

(** The f-string of line 6. *)
Definition report (j : Z) (line : str) : str :=
  format_04d (j + 1) ++ lit ": " ++ line.

(** Lines 5-6: the inner loop run at the first match. *)
Definition window (lines : list str) (idx : Z) : M unit :=
  for_each (range (idx - 2) (Z.min (idx + 3) (Z.of_nat (length lines))))
    (fun j => line ← getitem lines j; print (report j line)).

Definition no_match : str := lit "no match".

(** Lines 3-9: the [for]/[else] over [enumerate(lines)]; [rest] is what
    is left to enumerate, [idx] the index of its head.  The [break]
    leaves the loop after the window; the [else] runs when the lines are
    exhausted. *)
Fixpoint scan (marker : str) (lines : list str) (idx : Z) (rest : list str)
  : M unit :=
  match rest with
  | [] => print no_match
  | line :: rest' =>
      if contains marker line then window lines idx
      else scan marker lines (idx + 1) rest'
  end.

Definition findContext (path : string) (marker : str) : M unit :=
  text ← read_text path;
  let lines := splitlines text in
  scan marker lines 0 lines.

Definition marker_literal : str := lit "FullyDefineSketch".

Definition show_lines : M unit := findContext target marker_literal.

(** ** Vocabulary of the specification *)

(** The offsets at which [sub] occurs in [text], in increasing order. *)
Definition occurrences (sub text : str) : list nat :=
  filter (fun k => startswith sub (drop k text) = true) (seq 0 (S (length text))).

(** The window the specification describes for a match at line [i] of
    [lines]: lines [max(0, i-2)] to [min(n-1, i+2)], each with its 1-based
    number. *)
Definition spec_window (lines : list str) (i : nat) : list (nat * str) :=
  let lo := i - 2 in
  let hi := Nat.min (length lines - 1) (i + 2) in
  (fun k => (S k, default [] (lines !! k))) <$> seq lo (S hi - lo).

(** Line [i] is the first line of [lines] that contains [marker]. *)
Definition first_match (marker : str) (lines : list str) (i : nat) : Prop :=
  (exists line, lines !! i = Some line /\ contains marker line = true) /\
  forall k line, k < i -> lines !! k = Some line -> contains marker line = false.

(** Line [i] is the only line of [lines] that contains [marker]. *)
Definition only_match (marker : str) (lines : list str) (i : nat) : Prop :=
  (exists line, lines !! i = Some line /\ contains marker line = true) /\
  forall k line, k <> i -> lines !! k = Some line -> contains marker line = false.

(** How the specification's pair is shown on the console. *)
Definition show_numbered (p : nat * str) : str :=
  format_04d (Z.of_nat p.1) ++ lit ": " ++ p.2.

(** [agree a b]: [a] and [b] carry the same characters as far as both
    reach. *)
Fixpoint agree (a b : str) : bool :=
  match a, b with
  | x :: a', y :: b' => (x =? y)%N && agree a' b'
  | _, _ => true
  end.

(** [separated old new]: [old] is not empty and cannot lie across a copy
    of [new].  Laid over [new] from any offset inside it, [old] differs
    from it at a position both cover; laid so that it starts before [new]
    and reaches its first position, it differs likewise. *)
Definition separated (old new : str) : bool :=
  match old with [] => false | _ :: _ => true end &&
  forallb (fun d => negb (agree old (drop d new))) (seq 0 (length new)) &&
  forallb (fun e => negb (agree (drop e old) new)) (seq 1 (length old - 1)).

(** The string the body of the window loop prints for index [j] when
    [lines[j]] exists. *)
Definition printed_at (lines : list str) (j : Z) : str :=
  report j (default [] (lines !! Z.to_nat (wrap_index (Z.of_nat (length lines)) j))).

(** A computation that leaves the file store as it found it, however it
    ends. *)
Definition keeps_files {A} (m : M A) : Prop :=
  forall w, files (m w).2 = files w.

(** The text whose lines are [lines], each closed by a line feed. *)
Definition unlines (lines : list str) : str :=
  concat ((fun line => line ++ [LF]) <$> lines).

(** Sample files. *)
Definition sample_scenario : str :=
  lit "A" ++ [LF] ++ lit "B" ++ [LF] ++ lit "FullyDefineSketch(...)" ++ [LF] ++
  lit "C" ++ [LF] ++ lit "D" ++ [LF].

Definition sample_match_first : str :=
  lit "FullyDefineSketch(...)" ++ [LF] ++ lit "B" ++ [LF] ++ lit "C" ++ [LF].

Definition sample_one_line : str := lit "x = FullyDefineSketch();" ++ [LF].

Definition sample_no_marker : str := lit "A" ++ [LF] ++ lit "B" ++ [LF].

Definition sample_patchable : str := lit "{" ++ old_block ++ lit "}".

Definition sample_two_blocks : str := lit "x" ++ old_block ++ old_block.

(** The world in which the file [path] holds the characters [raw], no
    other file exists and nothing has been printed. *)
Definition file_of (path : string) (raw : str) : world :=
  World {[ path := Chars raw ]} [].

(** ** Vocabulary of the further properties *)

(** The script started [n] times in a row; a run that raises ends the
    row. *)
Fixpoint rerun (n : nat) (sys : os) (path : string) (old new : str) : M unit :=
  match n with
  | 0 => mret tt
  | S n' => patch sys path old new;; rerun n' sys path old new
  end.

(** A string without carriage return. *)
Definition no_cr (s : str) : Prop := Forall (fun c => c <> CR) s.

(** A file whose line endings are those of the platform: reading it and
    writing the text back leaves it as it is. *)
Definition native (sys : os) (raw : str) : Prop :=
  to_disk sys (universal_newlines raw) = raw.

(** The old block with its lines closed by CR LF. *)
Definition old_block_crlf : str := to_disk Windows old_block.

Definition sample_crlf : str :=
  lit "x" ++ [CR; LF] ++ old_block ++ lit "y" ++ [CR; LF].

Definition sample_crlf_block : str := lit "{" ++ old_block_crlf ++ lit "}".

(** Two copies of the old block behind an x, as a Windows editor stores
    them. *)
Definition sample_two_blocks_crlf : str :=
  lit "x" ++ old_block_crlf ++ old_block_crlf.

(** A string without line boundary. *)
Definition one_line (s : str) : Prop :=
  Forall (fun c => is_linebreak c = false) s.

(** The text whose lines are [lines], each closed by CR LF. *)
Definition unlines_crlf (lines : list str) : str :=
  concat ((fun line => line ++ [CR; LF]) <$> lines).

(** What is left of [t] behind the line boundary [c]: a LF that follows a
    CR belongs to the boundary. *)
Definition after_break (c : char) (t : str) : str :=
  match t with
  | c' :: t'' => if (c =? CR)%N && (c' =? LF)%N then t'' else t
  | [] => []
  end.

Definition sample_window_lines : list str :=
  [lit "a"; lit "b"; lit "c"; lit "x = FullyDefineSketch();"; lit "d"].

(** * Properties *)

(** ** Substring search *)

Lemma startswith_app (p r : str) : startswith p (p ++ r) = true.
Proof.
  induction p as [|a p IH]; simpl; [done|].
  by rewrite N.eqb_refl, IH.
Qed.

Lemma startswith_inv (p t : str) :
  startswith p t = true -> t = p ++ drop (length p) t.
Proof.
  revert t. induction p as [|a p IH]; intros [|b t]; simpl; try done.
  intros [Hab Hp]%andb_prop. apply N.eqb_eq in Hab as ->.
  f_equal. by apply IH.
Qed.

Lemma startswith_nil_r (p : str) : startswith p [] = true -> p = [].
Proof. by destruct p. Qed.

(** [find] returns an offset at which [sub] occurs, and no smaller offset
    carries an occurrence. *)
Lemma find_Some (sub text : str) (i : nat) :
  find sub text = Some i ->
  startswith sub (drop i text) = true /\
  i + length sub <= length text /\
  forall k, k < i -> startswith sub (drop k text) = false.
Proof.
  revert i. induction text as [|c t IH]; intros i; simpl.
  - destruct (startswith sub []) eqn:E; [|done].
    intros [= <-]. apply startswith_nil_r in E as ->. simpl.
    repeat split; [lia | intros k; lia].
  - destruct (startswith sub (c :: t)) eqn:E.
    + intros [= <-]. simpl. split; [done|]. split; [|intros k; lia].
      apply startswith_inv in E. apply (f_equal length) in E.
      rewrite length_app in E. simpl in E. lia.
    + destruct (find sub t) as [i'|] eqn:F; simpl; [|done].
      intros [= <-]. destruct (IH i' eq_refl) as (H1 & H2 & H3).
      simpl. repeat split; [done | lia |].
      intros [|k] Hk; simpl; [done | apply H3; lia].
Qed.

Lemma find_None (sub text : str) (k : nat) :
  find sub text = None -> startswith sub (drop k text) = false.
Proof.
  revert k. induction text as [|c t IH]; intros k; simpl.
  - destruct (startswith sub []) eqn:E; [done|]. by rewrite drop_nil.
  - destruct (startswith sub (c :: t)) eqn:E; [done|].
    destruct (find sub t) eqn:F; simpl; [done|]. intros _.
    destruct k as [|k]; simpl; [done | by apply IH].
Qed.

(** An occurrence anywhere makes [find] succeed, at that offset or before. *)
Lemma find_of_occurrence (sub text : str) (k : nat) :
  startswith sub (drop k text) = true ->
  exists i, find sub text = Some i /\ i <= k.
Proof.
  intros Hk. destruct (find sub text) as [i|] eqn:F.
  - exists i. split; [done|].
    destruct (find_Some _ _ _ F) as (_ & _ & Hmin).
    destruct (decide (i <= k)) as [|Hn]; [done|].
    rewrite Hmin in Hk by lia. done.
  - by rewrite (find_None _ _ k F) in Hk.
Qed.

Lemma contains_true (sub text : str) :
  contains sub text = true <-> exists i, find sub text = Some i.
Proof.
  unfold contains. destruct (find sub text); split; eauto; try done.
  by intros [? ?].
Qed.

Lemma contains_false (sub text : str) :
  contains sub text = false <-> find sub text = None.
Proof. unfold contains. by destruct (find sub text). Qed.

Lemma contains_occurrence (sub text : str) (k : nat) :
  startswith sub (drop k text) = true -> contains sub text = true.
Proof.
  intros H. apply contains_true.
  destruct (find_of_occurrence _ _ _ H) as (i & Hi & _). eauto.
Qed.

(** The text around the first occurrence. *)
Lemma find_split (sub text : str) (i : nat) :
  find sub text = Some i ->
  text = take i text ++ sub ++ drop (i + length sub) text /\
  length (take i text) = i.
Proof.
  intros F. destruct (find_Some _ _ _ F) as (Hocc & Hlen & _).
  split; [|rewrite length_take; lia].
  rewrite <- (take_drop i text) at 1. f_equal.
  apply startswith_inv in Hocc. by rewrite drop_drop in Hocc.
Qed.

(** [find] on a text given by its three parts. *)
Lemma find_at (sub pre post : str) :
  (forall k, k < length pre -> startswith sub (drop k (pre ++ sub ++ post)) = false) ->
  find sub (pre ++ sub ++ post) = Some (length pre).
Proof.
  intros Hmin.
  assert (Hocc : startswith sub (drop (length pre) (pre ++ sub ++ post)) = true).
  { rewrite drop_app_length. apply startswith_app. }
  destruct (find_of_occurrence _ _ _ Hocc) as (i & Hi & Hle).
  destruct (find_Some _ _ _ Hi) as (Hi' & _ & _).
  destruct (decide (i = length pre)) as [->|Hne]; [done|].
  rewrite Hmin in Hi' by lia. done.
Qed.

Lemma replace1_at (old new pre post : str) :
  find old (pre ++ old ++ post) = Some (length pre) ->
  replace1 old new (pre ++ old ++ post) = pre ++ new ++ post.
Proof.
  intros F. unfold replace1. rewrite F.
  rewrite take_app_length. f_equal. f_equal.
  rewrite drop_app_add'; [|done]. by rewrite drop_app_length.
Qed.

(** ** Line endings on disk *)

Lemma universal_newlines_cons (c : N) (t : str) :
  c <> CR -> universal_newlines (c :: t) = c :: universal_newlines t.
Proof. intros Hc. simpl. by destruct (N.eqb_spec c CR). Qed.

Lemma universal_newlines_cr (t : str) :
  universal_newlines (CR :: t) = LF :: universal_newlines (after_break CR t).
Proof.
  simpl. f_equal. destruct t as [|c' t']; [done|]. simpl.
  by destruct (c' =? LF)%N.
Qed.

Lemma after_break_length (c : N) (t : str) : length (after_break c t) <= length t.
Proof.
  destruct t as [|c' t'']; simpl; [done|].
  destruct ((c =? CR)%N && (c' =? LF)%N); simpl; lia.
Qed.

Lemma after_break_other (c : N) (t : str) : c <> CR -> after_break c t = t.
Proof.
  intros Hc. destruct t as [|c' t'']; simpl; [done|].
  by destruct (N.eqb_spec c CR).
Qed.

(** What [read_text] yields carries no carriage return. *)
Lemma universal_newlines_no_cr (raw : str) : no_cr (universal_newlines raw).
Proof.
  remember (length raw) as n eqn:Hn. assert (Hle : length raw <= n) by lia. clear Hn.
  revert raw Hle. induction n as [|n IH]; intros [|c t] Hle; simpl in Hle;
    try constructor; try lia.
  - destruct (N.eqb_spec c CR) as [->|Hc].
    + rewrite universal_newlines_cr. constructor; [done|].
      apply IH. pose proof (after_break_length CR t). lia.
    + rewrite universal_newlines_cons by done. constructor; [done|].
      apply IH. lia.
Qed.

(** A text without carriage return is read as it is stored. *)
Lemma universal_newlines_id (s : str) : no_cr s -> universal_newlines s = s.
Proof.
  induction 1 as [|c s Hc _ IH]; [done|].
  by rewrite universal_newlines_cons, IH.
Qed.

Lemma to_disk_app (sys : os) (a b : str) :
  to_disk sys (a ++ b) = to_disk sys a ++ to_disk sys b.
Proof.
  induction a as [|c a IH]; [done|].
  simpl. by rewrite IH, <- app_assoc.
Qed.

Lemma to_disk_posix (text : str) : to_disk Posix text = text.
Proof.
  induction text as [|c t IH]; [done|]. simpl. rewrite IH.
  by destruct (N.eqb_spec c LF) as [->|].
Qed.

(** A text without carriage return that was written is read back as it
    was, on either platform. *)
Lemma universal_newlines_to_disk (sys : os) (text : str) :
  no_cr text -> universal_newlines (to_disk sys text) = text.
Proof.
  induction 1 as [|c t Hc _ IH]; [done|]. simpl to_disk.
  destruct (N.eqb_spec c LF) as [->|Hlf].
  - destruct sys; simpl linesep.
    + cbn [app]. by rewrite universal_newlines_cons, IH.
    + cbn [app]. rewrite universal_newlines_cr. simpl. by rewrite IH.
  - cbn [app]. by rewrite universal_newlines_cons, IH.
Qed.

Lemma native_posix (raw : str) : no_cr raw -> native Posix raw.
Proof. intros H. unfold native. by rewrite to_disk_posix, universal_newlines_id. Qed.

Lemma native_written (sys : os) (text : str) : no_cr text -> native sys (to_disk sys text).
Proof. intros H. unfold native. by rewrite universal_newlines_to_disk. Qed.

Example sample_two_blocks_crlf_native : native Windows sample_two_blocks_crlf.
Proof. vm_compute. reflexivity. Qed.

Lemma no_cr_app (a b : str) : no_cr (a ++ b) <-> no_cr a /\ no_cr b.
Proof. apply Forall_app. Qed.

(** ** The Patcher *)

Lemma patch_run (sys : os) (path : string) (old new raw : str) (w : world) :
  files w !! path = Some (Chars raw) ->
  patch sys path old new w =
    if contains old (universal_newlines raw)
    then (Ok tt,
          World (<[path := Chars (to_disk sys (replace1 old new (universal_newlines raw)))]>
                   (files w))
                (stdout w))
    else (Raise (SystemExit pattern_not_found), w).
Proof.
  intros Hf. unfold patch, mbind, M_bind, read_text. rewrite Hf.
  by destruct (contains old (universal_newlines raw)).
Qed.

(** C1, as stated, fails on a file whose line endings are not those of
    the platform.  On POSIX, the file x CR LF, old block, y CR LF contains
    the old block; the claim asks for the same file with the new block in
    its place, but the run writes x LF, new block, y LF: the two CR outside
    the block are gone. *)
Lemma patch_line_endings_counterexample :
  contains old_block sample_crlf = true /\
  replace1 old_block new_block sample_crlf =
    lit "x" ++ [CR; LF] ++ new_block ++ lit "y" ++ [CR; LF] /\
  apply_rect_fix Posix (file_of target sample_crlf) =
    (Ok tt, file_of target (lit "x" ++ [LF] ++ new_block ++ lit "y" ++ [LF])) /\
  lit "x" ++ [LF] ++ new_block ++ lit "y" ++ [LF] <>
    lit "x" ++ [CR; LF] ++ new_block ++ lit "y" ++ [CR; LF].
Proof.
  split; [vm_compute; reflexivity|].
  split; [vm_compute; reflexivity|].
  split; [vm_compute; reflexivity|].
  vm_compute. discriminate.
Qed.

(** C1, amended.  When the text read from the file (CR LF and CR read as
    LF) contains [old], the run ends normally.  With [pre ++ old ++ post]
    the text read and [old] at no offset inside [pre], it writes
    [pre ++ new ++ post], every LF as the line separator of the platform:
    the first occurrence is replaced and the text before and after it,
    later occurrences of [old] in [post] included, is written back as it
    was read; no other file and nothing on the console changes.  When
    the file's line endings are those of the platform, the characters on
    disk before and behind the replaced block are the same after the run
    as before it. *)
Theorem patch_replaces_first_occurrence
    (sys : os) (path : string) (old new raw : str) (w : world) :
  files w !! path = Some (Chars raw) ->
  contains old (universal_newlines raw) = true ->
  exists pre post : str,
    universal_newlines raw = pre ++ old ++ post /\
    (forall k, k < length pre ->
       startswith old (drop k (universal_newlines raw)) = false) /\
    (forall k, startswith old (drop k post) = true ->
       startswith old (drop (length pre + length new + k) (pre ++ new ++ post)) = true) /\
    patch sys path old new w =
      (Ok tt, World (<[path := Chars (to_disk sys (pre ++ new ++ post))]> (files w))
                    (stdout w)) /\
    (native sys raw ->
       raw = to_disk sys pre ++ to_disk sys old ++ to_disk sys post /\
       to_disk sys (pre ++ new ++ post) =
         to_disk sys pre ++ to_disk sys new ++ to_disk sys post).
Proof.
  intros Hf Hc. rewrite (patch_run _ _ _ _ _ _ Hf), Hc.
  apply contains_true in Hc as [i F].
  destruct (find_split _ _ _ F) as [Hsplit Hlen].
  destruct (find_Some _ _ _ F) as (_ & _ & Hmin).
  set (text := universal_newlines raw) in *.
  set (pre := take i text) in *. set (post := drop (i + length old) text) in *.
  exists pre, post. split; [done|]. split; [by rewrite Hlen|]. split; [|split].
  - intros k Hk. rewrite <- Nat.add_assoc, drop_app_add'; [|done].
    rewrite drop_app_add'; [|done]. done.
  - do 5 f_equal. etrans; [|apply replace1_at; by rewrite <- Hsplit, Hlen].
    by rewrite <- Hsplit.
  - intros Hnat. unfold native in Hnat. fold text in Hnat. split.
    + rewrite <- Hnat at 1. by rewrite Hsplit, !to_disk_app.
    + by rewrite !to_disk_app.
Qed.

Example patch_replaces_first_occurrence_witness :
  exists pre post : str,
    universal_newlines sample_two_blocks_crlf = pre ++ old_block ++ post /\
    (forall k, k < length pre ->
       startswith old_block (drop k (universal_newlines sample_two_blocks_crlf)) = false) /\
    (forall k, startswith old_block (drop k post) = true ->
       startswith old_block
         (drop (length pre + length new_block + k) (pre ++ new_block ++ post)) = true) /\
    patch Windows target old_block new_block (file_of target sample_two_blocks_crlf) =
      (Ok tt, World (<[target := Chars (to_disk Windows (pre ++ new_block ++ post))]>
                       (files (file_of target sample_two_blocks_crlf)))
                    (stdout (file_of target sample_two_blocks_crlf))) /\
    (native Windows sample_two_blocks_crlf ->
       sample_two_blocks_crlf =
         to_disk Windows pre ++ to_disk Windows old_block ++ to_disk Windows post /\
       to_disk Windows (pre ++ new_block ++ post) =
         to_disk Windows pre ++ to_disk Windows new_block ++ to_disk Windows post).
Proof.
  apply (patch_replaces_first_occurrence Windows target old_block new_block
           sample_two_blocks_crlf (file_of target sample_two_blocks_crlf)).
  - reflexivity.
  - vm_compute. reflexivity.
Defined.

(** C2, as stated, fails when the file holds the block with other line
    endings.  The file made of an opening brace, the old block with its
    lines closed by CR LF, and a closing brace does not contain the old
    block of the script, whose lines are closed by LF; yet the run passes
    the guard, because the text is read with CR LF as LF, and rewrites
    the file. *)
Lemma patch_absent_on_disk_counterexample :
  contains old_block sample_crlf_block = false /\
  apply_rect_fix Posix (file_of target sample_crlf_block) =
    (Ok tt, file_of target (lit "{" ++ new_block ++ lit "}")) /\
  lit "{" ++ new_block ++ lit "}" <> sample_crlf_block.
Proof.
  split; [vm_compute; reflexivity|].
  split; [vm_compute; reflexivity|].
  vm_compute. discriminate.
Qed.

(** C2, amended.  When the text read from the file (CR LF and CR read as
    LF) does not contain [old], the run ends with
    [SystemExit('pattern not found')] and the world it leaves is the world
    it started from: nothing was written, so the file is on disk as
    before. *)
Theorem patch_absent_raises_and_writes_nothing
    (sys : os) (path : string) (old new raw : str) (w : world) :
  files w !! path = Some (Chars raw) ->
  contains old (universal_newlines raw) = false ->
  patch sys path old new w = (Raise (SystemExit pattern_not_found), w) /\
  files (patch sys path old new w).2 !! path = Some (Chars raw).
Proof.
  intros Hf Hc. rewrite (patch_run _ _ _ _ _ _ Hf), Hc. by split.
Qed.

Example patch_absent_raises_and_writes_nothing_witness :
  patch Posix target old_block new_block (file_of target new_block) =
    (Raise (SystemExit pattern_not_found), file_of target new_block) /\
  files (patch Posix target old_block new_block (file_of target new_block)).2 !! target =
    Some (Chars new_block).
Proof.
  apply (patch_absent_raises_and_writes_nothing Posix target old_block new_block new_block
           (file_of target new_block)).
  - reflexivity.
  - vm_compute. reflexivity.
Defined.

(** ** Texts with a single occurrence *)

Lemma occurrences_elem (sub text : str) (k : nat) :
  k ∈ occurrences sub text <->
  startswith sub (drop k text) = true /\ k <= length text.
Proof.
  unfold occurrences. rewrite list_elem_of_filter, elem_of_seq.
  split; intros [? ?]; split; try done; lia.
Qed.

Lemma occurrences_single (old text : str) (i : nat) :
  occurrences old text = [i] ->
  find old text = Some i /\
  forall k, k <= length text -> startswith old (drop k text) = true -> k = i.
Proof.
  intros Hocc.
  assert (Honly : forall k, k <= length text ->
            startswith old (drop k text) = true -> k = i).
  { intros k Hk Hs.
    assert (Hin : k ∈ occurrences old text) by by apply occurrences_elem.
    rewrite Hocc in Hin. by apply list_elem_of_singleton in Hin. }
  split; [|done].
  assert (Hi : i ∈ occurrences old text) by (rewrite Hocc; apply list_elem_of_singleton; done).
  apply occurrences_elem in Hi as [Hs _].
  destruct (find_of_occurrence _ _ _ Hs) as (i' & F & _).
  destruct (find_Some _ _ _ F) as (Hs' & Hlen & _).
  rewrite F. f_equal. apply Honly; [lia | done].
Qed.

(** ** Undoing a patch *)

Lemma replace1_roundtrip (old new text : str) (i : nat) :
  find old text = Some i ->
  find new (replace1 old new text) = Some i ->
  replace1 new old (replace1 old new text) = text.
Proof.
  intros F G. destruct (find_split _ _ _ F) as [Hsplit Hlen].
  set (pre := take i text) in *. set (post := drop (i + length old) text) in *.
  assert (Hp : replace1 old new text = pre ++ new ++ post).
  { rewrite Hsplit at 1. apply replace1_at. rewrite <- Hsplit. by rewrite Hlen. }
  rewrite Hp in *. etrans; [|symmetry; exact Hsplit].
  apply replace1_at. by rewrite Hlen.
Qed.

(** C4, as stated, fails: on a file made of the script's new block
    followed by its old block, the old block occurs once (at offset 400);
    after the patch the file holds the new block twice, and replacing the
    first of them back puts the old block in front instead of behind. *)
Lemma patch_roundtrip_counterexample :
  occurrences old_block (new_block ++ old_block) = [400] /\
  apply_rect_fix Posix (file_of target (new_block ++ old_block)) =
    (Ok tt, file_of target (new_block ++ new_block)) /\
  replace1 new_block old_block (new_block ++ new_block) = old_block ++ new_block /\
  old_block ++ new_block <> new_block ++ old_block.
Proof.
  split; [vm_compute; reflexivity|].
  split; [vm_compute; reflexivity|].
  split; [vm_compute; reflexivity|].
  vm_compute. discriminate.
Qed.

(** A block found in a text that was read carries no carriage return. *)
Lemma found_no_cr (sub text : str) (i : nat) :
  find sub text = Some i -> no_cr text -> no_cr sub.
Proof.
  intros F Ht. destruct (find_split _ _ _ F) as [Hsplit _].
  rewrite Hsplit in Ht. by apply no_cr_app in Ht as [_ [H _]%no_cr_app].
Qed.

Lemma replace1_no_cr (old new text : str) :
  no_cr text -> no_cr new -> no_cr (replace1 old new text).
Proof.
  intros Ht Hn. unfold replace1. destruct (find old text) as [i|]; [|done].
  apply no_cr_app. split; [by apply Forall_take|].
  apply no_cr_app. split; [done | by apply Forall_drop].
Qed.

(** C4, amended.  When the text read from the file contains [old]
    exactly once, at offset [i], and the first occurrence of [new] in the
    patched file, read again, is the one spliced in at [i], replacing the
    first [new] by [old] in the text of the patched file gives back the
    text the run started from; written out, it gives back the file
    character for character when the file's line endings are those of
    the platform. *)
Theorem patch_roundtrip
    (sys : os) (path : string) (old new raw : str) (w : world) (i : nat) :
  files w !! path = Some (Chars raw) ->
  occurrences old (universal_newlines raw) = [i] ->
  find new (universal_newlines
              (to_disk sys (replace1 old new (universal_newlines raw)))) = Some i ->
  exists patched : str,
    patch sys path old new w =
      (Ok tt, World (<[path := Chars patched]> (files w)) (stdout w)) /\
    replace1 new old (universal_newlines patched) = universal_newlines raw /\
    (native sys raw ->
       to_disk sys (replace1 new old (universal_newlines patched)) = raw).
Proof.
  intros Hf Hocc G. apply occurrences_single in Hocc as [F _].
  exists (to_disk sys (replace1 old new (universal_newlines raw))).
  assert (Hnew : no_cr new).
  { apply (found_no_cr _ _ _ G), universal_newlines_no_cr. }
  assert (Hback : universal_newlines
                    (to_disk sys (replace1 old new (universal_newlines raw)))
                  = replace1 old new (universal_newlines raw)).
  { apply universal_newlines_to_disk, replace1_no_cr;
      [apply universal_newlines_no_cr | done]. }
  rewrite Hback in *.
  assert (Hround : replace1 new old (replace1 old new (universal_newlines raw))
                   = universal_newlines raw)
    by by apply (replace1_roundtrip old new _ i).
  split; [|split].
  - rewrite (patch_run _ _ _ _ _ _ Hf).
    by rewrite (proj2 (contains_true old _) (ex_intro _ i F)).
  - done.
  - intros Hnat. by rewrite Hround.
Qed.

Example patch_roundtrip_witness :
  exists patched : str,
    patch Posix target old_block new_block (file_of target sample_patchable) =
      (Ok tt, World (<[target := Chars patched]> (files (file_of target sample_patchable)))
                    (stdout (file_of target sample_patchable))) /\
    replace1 new_block old_block (universal_newlines patched) =
      universal_newlines sample_patchable /\
    (native Posix sample_patchable ->
       to_disk Posix (replace1 new_block old_block (universal_newlines patched)) =
         sample_patchable).
Proof.
  apply (patch_roundtrip Posix target old_block new_block sample_patchable
           (file_of target sample_patchable) 1).
  - reflexivity.
  - vm_compute. reflexivity.
  - vm_compute. reflexivity.
Defined.

(** ** Running the Patcher twice *)

Lemma startswith_app_long (p u x : str) :
  length p <= length u -> startswith p (u ++ x) = startswith p u.
Proof.
  revert u. induction p as [|a p IH]; intros [|b u] Hl; simpl in *; try done; [lia|].
  rewrite IH by lia. done.
Qed.

Lemma startswith_agree (a b c : str) :
  startswith a (b ++ c) = true -> agree a b = true.
Proof.
  revert b. induction a as [|x a IH]; intros [|y b]; simpl; try done.
  intros [-> H]%andb_prop. simpl. by apply IH.
Qed.

Lemma startswith_drop_app (p u r : str) :
  startswith p (u ++ r) = true -> length u <= length p ->
  startswith (drop (length u) p) r = true.
Proof.
  revert p. induction u as [|b u IH]; intros p; simpl.
  - by rewrite drop_0.
  - destruct p as [|a p]; simpl; [lia|].
    intros [_ H]%andb_prop Hl. apply IH; [done | lia].
Qed.

Lemma separated_inside (old new : str) (d : nat) :
  separated old new = true -> d < length new -> agree old (drop d new) = false.
Proof.
  unfold separated. intros [[_ HA]%andb_prop _]%andb_prop Hd.
  rewrite forallb_forall in HA. apply negb_true_iff, HA, in_seq. lia.
Qed.

Lemma separated_before (old new : str) (e : nat) :
  separated old new = true -> 0 < e < length old -> agree (drop e old) new = false.
Proof.
  unfold separated. intros [_ HB]%andb_prop He.
  rewrite forallb_forall in HB. apply negb_true_iff, HB, in_seq. lia.
Qed.

Lemma separated_nonempty (old new : str) :
  separated old new = true -> 0 < length old.
Proof. unfold separated. destruct old; simpl; [done | lia]. Qed.

(** With [old] and [new] separated, splicing [new] in place of the first
    occurrence of [old] leaves an occurrence of [old] only where the rest
    of the text already had one. *)
Lemma separated_patched (old new pre post : str) (k : nat) :
  separated old new = true ->
  (forall j, j < length pre -> startswith old (drop j (pre ++ old ++ post)) = false) ->
  (forall j, startswith old (drop j post) = false) ->
  startswith old (drop k (pre ++ new ++ post)) = false.
Proof.
  intros Hsep Hpre Hpost.
  destruct (decide (k < length pre)) as [Hk|Hk].
  - destruct (decide (k + length old <= length pre)) as [Hin|Hout].
    + rewrite <- (Hpre k Hk). rewrite !drop_app_le by lia.
      rewrite !startswith_app_long; [done | |]; rewrite length_drop; lia.
    + apply not_true_is_false. intros Hs.
      rewrite drop_app_le in Hs by lia.
      apply startswith_drop_app in Hs; [|rewrite length_drop; lia].
      apply startswith_agree in Hs.
      rewrite separated_before in Hs; [done | done |].
      rewrite length_drop. lia.
  - destruct (decide (k < length pre + length new)) as [Hn|Hn].
    + apply not_true_is_false. intros Hs.
      replace k with (length pre + (k - length pre)) in Hs by lia.
      rewrite drop_app_add' in Hs by done.
      rewrite drop_app_le in Hs by lia.
      apply startswith_agree in Hs.
      rewrite separated_inside in Hs; [done | done | lia].
    + replace k with (length pre + (length new + (k - length pre - length new))) by lia.
      rewrite drop_app_add' by done. rewrite drop_app_add' by done. apply Hpost.
Qed.

Lemma separated_single (old new text : str) (i : nat) :
  separated old new = true ->
  occurrences old text = [i] ->
  contains old text = true /\ contains old (replace1 old new text) = false.
Proof.
  intros Hsep Hocc. apply occurrences_single in Hocc as [F Honly].
  split; [apply contains_true; eauto|].
  destruct (find_split _ _ _ F) as [Hsplit Hlen].
  destruct (find_Some _ _ _ F) as (_ & Hfit & Hmin).
  set (pre := take i text) in *. set (post := drop (i + length old) text) in *.
  assert (Hp : replace1 old new text = pre ++ new ++ post).
  { rewrite Hsplit at 1. apply replace1_at. rewrite <- Hsplit. by rewrite Hlen. }
  rewrite Hp. apply contains_false.
  destruct (find old (pre ++ new ++ post)) as [k|] eqn:G; [|done].
  destruct (find_Some _ _ _ G) as (Hs & _ & _).
  rewrite separated_patched in Hs; [done | done | |].
  - intros j Hj. rewrite <- Hsplit. apply Hmin. lia.
  - intros j. apply not_true_is_false. intros Hj.
    pose proof (separated_nonempty _ _ Hsep) as Hne.
    destruct (decide (j <= length post)) as [Hjl|Hjl].
    + assert (i + length old + j = i); [|lia].
      apply Honly.
      * unfold post in Hjl. rewrite length_drop in Hjl. lia.
      * unfold post in Hj. rewrite drop_drop in Hj. done.
    + rewrite drop_ge in Hj by lia. apply startswith_nil_r in Hj.
      rewrite Hj in Hne. simpl in Hne. lia.
Qed.

Lemma blocks_separated : separated old_block new_block = true.
Proof. vm_compute. reflexivity. Qed.

Lemma no_cr_check (s : str) :
  forallb (fun c => negb (c =? CR)%N) s = true -> no_cr s.
Proof.
  intros H. apply Forall_forall. intros c Hc%list_elem_of_In.
  rewrite forallb_forall in H. specialize (H c Hc).
  by destruct (N.eqb_spec c CR).
Qed.

Lemma new_block_no_cr : no_cr new_block.
Proof. apply no_cr_check. vm_compute. reflexivity. Qed.

Lemma old_block_no_cr : no_cr old_block.
Proof. apply no_cr_check. vm_compute. reflexivity. Qed.

(** With [new] free of carriage returns, the patched file is read back
    as the text that was written. *)
Lemma patched_reads_back (sys : os) (old new raw : str) :
  no_cr new ->
  universal_newlines (to_disk sys (replace1 old new (universal_newlines raw))) =
    replace1 old new (universal_newlines raw).
Proof.
  intros Hn. apply universal_newlines_to_disk, replace1_no_cr; [|done].
  apply universal_newlines_no_cr.
Qed.

(** C5, as stated, fails: on a file that holds the script's old block
    twice the first run replaces the first copy, the patched text still
    contains the old block, and the second run succeeds as well. *)
Lemma patch_twice_counterexample :
  contains old_block (old_block ++ old_block) = true /\
  apply_rect_fix Posix (file_of target (old_block ++ old_block)) =
    (Ok tt, file_of target (new_block ++ old_block)) /\
  contains old_block (new_block ++ old_block) = true /\
  apply_rect_fix Posix (file_of target (new_block ++ old_block)) =
    (Ok tt, file_of target (new_block ++ new_block)).
Proof. repeat split; vm_compute; reflexivity. Qed.

(** C5, amended.  When [old] and [new] are separated and [new] has no
    carriage return (as is the case for the script's two blocks), and
    the text read from the file contains [old] exactly once, the run
    succeeds, the patched file read again no longer contains [old], and
    a second run on the patched file ends with
    [SystemExit('pattern not found')] and changes nothing. *)
Theorem patch_twice_fails
    (sys : os) (path : string) (old new raw : str) (w : world) (i : nat) :
  separated old new = true ->
  no_cr new ->
  files w !! path = Some (Chars raw) ->
  occurrences old (universal_newlines raw) = [i] ->
  exists (patched : str) (w1 : world),
    patch sys path old new w = (Ok tt, w1) /\
    files w1 !! path = Some (Chars patched) /\
    contains old (universal_newlines patched) = false /\
    patch sys path old new w1 = (Raise (SystemExit pattern_not_found), w1).
Proof.
  intros Hsep Hnew Hf Hocc.
  destruct (separated_single _ _ _ _ Hsep Hocc) as [Hc Hgone].
  set (patched := to_disk sys (replace1 old new (universal_newlines raw))).
  set (w1 := World (<[path := Chars patched]> (files w)) (stdout w)).
  assert (Hf1 : files w1 !! path = Some (Chars patched)) by (simpl; apply lookup_insert_eq).
  assert (Hread : contains old (universal_newlines patched) = false).
  { unfold patched. by rewrite patched_reads_back. }
  exists patched, w1.
  split; [by rewrite (patch_run _ _ _ _ _ _ Hf), Hc|].
  split; [done|]. split; [done|].
  by rewrite (patch_run _ _ _ _ _ _ Hf1), Hread.
Qed.

Example patch_twice_fails_witness :
  exists (patched : str) (w1 : world),
    patch Windows target old_block new_block (file_of target sample_crlf_block) =
      (Ok tt, w1) /\
    files w1 !! target = Some (Chars patched) /\
    contains old_block (universal_newlines patched) = false /\
    patch Windows target old_block new_block w1 =
      (Raise (SystemExit pattern_not_found), w1).
Proof.
  apply (patch_twice_fails Windows target old_block new_block sample_crlf_block
           (file_of target sample_crlf_block) 1).
  - vm_compute. reflexivity.
  - apply no_cr_check. vm_compute. reflexivity.
  - reflexivity.
  - vm_compute. reflexivity.
Defined.

(** The script itself: on a file whose text holds the old block exactly
    once, a second run of [apply_rect_fix] stops at the guard. *)
Corollary apply_rect_fix_twice (sys : os) (raw : str) (w : world) (i : nat) :
  files w !! target = Some (Chars raw) ->
  occurrences old_block (universal_newlines raw) = [i] ->
  exists w1 : world,
    apply_rect_fix sys w = (Ok tt, w1) /\
    apply_rect_fix sys w1 = (Raise (SystemExit pattern_not_found), w1).
Proof.
  intros Hf Hocc. unfold apply_rect_fix.
  destruct (separated_single _ _ _ _ blocks_separated Hocc) as [Hc Hgone].
  eexists. split; [by rewrite (patch_run _ _ _ _ _ _ Hf), Hc|].
  erewrite patch_run; [|simpl; apply lookup_insert_eq].
  by rewrite (patched_reads_back _ _ _ _ new_block_no_cr), Hgone.
Qed.

(** ** Lines of a text *)

Lemma splitlines_from_line (line cur rest : str) :
  Forall (fun c => is_linebreak c = false) line ->
  splitlines_from cur (line ++ LF :: rest) =
    (reverse cur ++ line) :: splitlines_from [] rest.
Proof.
  intros H. revert cur. induction H as [|c line Hc _ IH]; intros cur; simpl.
  - rewrite app_nil_r. by destruct rest.
  - rewrite Hc, IH, reverse_cons, <- app_assoc. done.
Qed.

(** Every list of lines free of line boundaries is the line list of a
    text: the one that closes each of them by a line feed. *)
Lemma splitlines_unlines (lines : list str) :
  Forall (Forall (fun c => is_linebreak c = false)) lines ->
  splitlines (unlines lines) = lines.
Proof.
  unfold splitlines, unlines.
  induction 1 as [|line lines Hl _ IH]; [done|].
  rewrite fmap_cons. cbn [concat]. rewrite <- app_assoc.
  change ([LF] ++ ?r) with (LF :: r).
  by rewrite splitlines_from_line, IH.
Qed.

(** ** The Line Finder *)

Lemma splitlines_from_char (c : char) (cur t : str) :
  is_linebreak c = false ->
  splitlines_from cur (c :: t) = splitlines_from (c :: cur) t.
Proof. intros H. simpl. by rewrite H. Qed.

Lemma splitlines_from_break (c : char) (cur t : str) :
  is_linebreak c = true ->
  splitlines_from cur (c :: t) = reverse cur :: splitlines_from [] (after_break c t).
Proof.
  intros H. simpl. rewrite H. f_equal.
  destruct t as [|c' t'']; simpl; [done|].
  by destruct ((c =? CR)%N && (c' =? LF)%N).
Qed.

Lemma after_break_split (c : char) (t : str) :
  exists sep : str, t = sep ++ after_break c t /\ length (after_break c t) <= length t.
Proof.
  destruct t as [|c' t'']; simpl; [by exists []|].
  destruct ((c =? CR)%N && (c' =? LF)%N).
  - exists [c']. split; [done | simpl; lia].
  - by exists [].
Qed.

(** The lines do not depend on how [read_text] treats line endings:
    CR LF and CR are boundaries for [splitlines] as well, so the text read
    and the characters on disk have the same lines. *)
Lemma splitlines_from_universal_newlines (n : nat) (raw cur : str) :
  length raw <= n ->
  splitlines_from cur (universal_newlines raw) = splitlines_from cur raw.
Proof.
  revert raw cur. induction n as [|n IH]; intros [|c t] cur Hn; simpl in Hn;
    try done; try lia.
  destruct (N.eqb_spec c CR) as [->|Hc].
  - rewrite universal_newlines_cr, !splitlines_from_break by done.
    rewrite after_break_other by done. f_equal.
    apply IH. pose proof (after_break_length CR t). lia.
  - rewrite universal_newlines_cons by done.
    destruct (is_linebreak c) eqn:Hb.
    + rewrite !splitlines_from_break by done.
      rewrite !after_break_other by done. f_equal. apply IH. lia.
    + rewrite !splitlines_from_char by done. apply IH. lia.
Qed.

Lemma splitlines_universal_newlines (raw : str) :
  splitlines (universal_newlines raw) = splitlines raw.
Proof. by apply (splitlines_from_universal_newlines (length raw)). Qed.


Lemma keeps_files_ret {A} (a : A) : keeps_files (mret a).
Proof. by intros w. Qed.

Lemma keeps_files_raise {A} (e : exn) : keeps_files (@raise A e).
Proof. by intros w. Qed.

Lemma keeps_files_bind {A B} (m : M A) (k : A -> M B) :
  keeps_files m -> (forall a, keeps_files (k a)) -> keeps_files (m ≫= k).
Proof.
  intros Hm Hk w. unfold mbind, M_bind. specialize (Hm w).
  destruct (m w) as [[a|e] w']; simpl in *; [|done].
  by rewrite Hk.
Qed.

Lemma keeps_files_read_text (path : string) : keeps_files (read_text path).
Proof. intros w. unfold read_text. by destruct (files w !! path) as [[raw|]|]. Qed.

Lemma keeps_files_print (s : str) : keeps_files (print s).
Proof. by intros w. Qed.

Lemma keeps_files_getitem (lines : list str) (j : Z) : keeps_files (getitem lines j).
Proof.
  intros w. unfold getitem.
  destruct (_ || _); [done|]. by destruct (lines !! _).
Qed.

Create HintDb frame discriminated.
#[local] Hint Resolve keeps_files_ret keeps_files_raise keeps_files_read_text
  keeps_files_print keeps_files_getitem : frame.

(** Walks through a sequence of calls, one [bind] at a time. *)
Ltac frame :=
  repeat first [ progress auto with frame
               | apply keeps_files_bind
               | intro ].

Lemma keeps_files_for_each {A} (xs : list A) (body : A -> M unit) :
  (forall x, keeps_files (body x)) -> keeps_files (for_each xs body).
Proof.
  intros Hb. induction xs as [|x xs IH]; simpl; [auto with frame|].
  apply keeps_files_bind; [apply Hb | by intros _].
Qed.

Lemma keeps_files_window (lines : list str) (idx : Z) : keeps_files (window lines idx).
Proof. apply keeps_files_for_each. intros j. frame. Qed.

#[local] Hint Resolve keeps_files_window : frame.

Lemma keeps_files_scan (marker : str) (lines rest : list str) (idx : Z) :
  keeps_files (scan marker lines idx rest).
Proof.
  revert idx. induction rest as [|line rest IH]; intros idx; simpl.
  - auto with frame.
  - destruct (contains marker line); auto with frame.
Qed.

#[local] Hint Resolve keeps_files_scan : frame.

(** C7. Whatever the file store, the console and the marker, and however
    the run ends (window, notice, missing or undecodable file, indexing
    error), the file store after [findContext] is the file store before
    it. *)
Theorem findContext_keeps_files (path : string) (marker : str) (w : world) :
  files (findContext path marker w).2 = files w.
Proof.
  revert w. change (keeps_files (findContext path marker)).
  unfold findContext. apply keeps_files_bind; [auto with frame|].
  intros text. cbv zeta. auto with frame.
Qed.

(** A run on a file that decodes: the scan goes over the lines of the
    text read, which are the lines of the characters on disk. *)
Lemma findContext_run (path : string) (marker text : str) (w : world) :
  files w !! path = Some (Chars text) ->
  findContext path marker w =
    scan marker (splitlines text) 0 (splitlines text) w.
Proof.
  intros Hf. unfold findContext, mbind, M_bind, read_text. rewrite Hf.
  by rewrite splitlines_universal_newlines.
Qed.

(** The enumeration passes over lines without the marker. *)
Lemma scan_skip (marker : str) (lines skipped rest : list str) (idx : Z) :
  Forall (fun line => contains marker line = false) skipped ->
  scan marker lines idx (skipped ++ rest) =
    scan marker lines (idx + Z.of_nat (length skipped))%Z rest.
Proof.
  intros H. revert idx. induction H as [|line skipped Hl _ IH]; intros idx; simpl.
  - f_equal. lia.
  - rewrite Hl, IH. f_equal. lia.
Qed.

Lemma scan_first_match (marker : str) (lines : list str) (i : nat) :
  first_match marker lines i ->
  scan marker lines 0 lines = window lines (Z.of_nat i).
Proof.
  intros [(line & Hi & Hc) Hbefore].
  rewrite <- (take_drop_middle lines i line Hi) at 2.
  rewrite scan_skip.
  - simpl. rewrite Hc. f_equal. rewrite length_take.
    apply lookup_lt_Some in Hi. lia.
  - apply Forall_lookup. intros k l Hk.
    apply lookup_take_Some in Hk as [Hk Hki]. by apply (Hbefore k).
Qed.

(** C6. When no line of the file contains the marker, the run ends
    normally and has printed the notice [no match] and nothing else. *)
Theorem findContext_no_match (path : string) (marker text : str) (w : world) :
  files w !! path = Some (Chars text) ->
  (forall line, line ∈ splitlines text -> contains marker line = false) ->
  findContext path marker w = (Ok tt, World (files w) (stdout w ++ [no_match])).
Proof.
  intros Hf Hno. rewrite (findContext_run _ _ _ _ Hf).
  rewrite <- (app_nil_r (splitlines text)) at 2.
  rewrite scan_skip; [done|].
  apply Forall_forall. exact Hno.
Qed.

Example findContext_no_match_witness :
  findContext target marker_literal (file_of target sample_no_marker) =
    (Ok tt, World (files (file_of target sample_no_marker))
                  (stdout (file_of target sample_no_marker) ++ [no_match])).
Proof.
  apply (findContext_no_match target marker_literal sample_no_marker
           (file_of target sample_no_marker)).
  - reflexivity.
  - intros line Hin. vm_compute in Hin.
    apply list_elem_of_In in Hin. simpl in Hin.
    destruct Hin as [<-|[<-|[]]]; vm_compute; reflexivity.
Defined.

(** *** The window loop *)

Lemma getitem_inside (lines : list str) (j : Z) (w : world) :
  (0 <= wrap_index (Z.of_nat (length lines)) j < Z.of_nat (length lines))%Z ->
  getitem lines j w =
    (Ok (default [] (lines !! Z.to_nat (wrap_index (Z.of_nat (length lines)) j))), w).
Proof.
  intros Hk. unfold getitem.
  destruct (Z.ltb_spec (wrap_index (Z.of_nat (length lines)) j) 0); [lia|].
  destruct (Z.leb_spec (Z.of_nat (length lines)) (wrap_index (Z.of_nat (length lines)) j)); [lia|].
  simpl.
  destruct (lookup_lt_is_Some_2 lines (Z.to_nat (wrap_index (Z.of_nat (length lines)) j)))
    as [line Hl]; [lia|].
  by rewrite Hl.
Qed.

Lemma getitem_outside (lines : list str) (j : Z) (w : world) :
  ~ (0 <= wrap_index (Z.of_nat (length lines)) j < Z.of_nat (length lines))%Z ->
  getitem lines j w = (Raise IndexError, w).
Proof.
  intros Hk. unfold getitem.
  destruct (Z.ltb_spec (wrap_index (Z.of_nat (length lines)) j) 0); [done|].
  destruct (Z.leb_spec (Z.of_nat (length lines)) (wrap_index (Z.of_nat (length lines)) j)); [done|].
  lia.
Qed.

(** A loop all of whose indices are in range prints one report per
    index, in order, and ends normally. *)
Lemma for_each_reports (lines : list str) (js : list Z) (w : world) :
  Forall (fun j => 0 <= wrap_index (Z.of_nat (length lines)) j
                     < Z.of_nat (length lines))%Z js ->
  for_each js (fun j => line ← getitem lines j; print (report j line)) w =
    (Ok tt, World (files w) (stdout w ++ (printed_at lines <$> js))).
Proof.
  intros H. revert w. induction H as [|j js Hj _ IH]; intros w; simpl.
  - rewrite app_nil_r. by destruct w.
  - unfold mbind at 1, M_bind at 1. unfold mbind at 1, M_bind at 1.
    rewrite (getitem_inside _ _ _ Hj). simpl.
    rewrite IH. simpl. by rewrite <- app_assoc.
Qed.

(** A loop whose first index is out of range raises at once. *)
Lemma for_each_raises_first (lines : list str) (j : Z) (js : list Z) (w : world) :
  ~ (0 <= wrap_index (Z.of_nat (length lines)) j < Z.of_nat (length lines))%Z ->
  for_each (j :: js) (fun j => line ← getitem lines j; print (report j line)) w =
    (Raise IndexError, w).
Proof.
  intros Hj. simpl. unfold mbind at 1, M_bind at 1. unfold mbind at 1, M_bind at 1.
  by rewrite (getitem_outside _ _ _ Hj).
Qed.

Lemma range_elem (a b j : Z) : j ∈ range a b <-> (a <= j < b)%Z.
Proof.
  unfold range. rewrite list_elem_of_fmap. split.
  - intros (k & -> & Hk). apply elem_of_seq in Hk. lia.
  - intros Hj. exists (Z.to_nat (j - a)). split; [lia|].
    apply elem_of_seq. lia.
Qed.

Lemma range_cons (a b : Z) : (a < b)%Z -> range a b = a :: range (a + 1) b.
Proof.
  intros Hab. unfold range.
  replace (Z.to_nat (b - a)) with (S (Z.to_nat (b - (a + 1)))) by lia.
  simpl. f_equal; [lia|].
  rewrite <- fmap_S_seq, <- list_fmap_compose.
  apply list_fmap_ext. intros _ k _. simpl. lia.
Qed.

(** C8. A file whose lines are A, B, FullyDefineSketch(...), C, D: the
    script prints the five lines in order, numbered 0001 to 0005, and
    ends normally. *)
Theorem show_lines_scenario (text : str) (w : world) :
  files w !! target = Some (Chars text) ->
  splitlines text =
    [lit "A"; lit "B"; lit "FullyDefineSketch(...)"; lit "C"; lit "D"] ->
  show_lines w =
    (Ok tt, World (files w)
       (stdout w ++ [lit "0001: A"; lit "0002: B";
                     lit "0003: FullyDefineSketch(...)";
                     lit "0004: C"; lit "0005: D"])).
Proof.
  intros Hf Hl. unfold show_lines.
  rewrite (findContext_run _ _ _ _ Hf), Hl.
  rewrite (scan_first_match marker_literal _ 2).
  - unfold window. rewrite for_each_reports; [done|].
    apply Forall_forall. intros j Hj. vm_compute in Hj.
    apply list_elem_of_In in Hj. simpl in Hj.
    destruct Hj as [<-|[<-|[<-|[<-|[<-|[]]]]]]; by vm_compute.
  - split.
    + eexists. split; [reflexivity | vm_compute; reflexivity].
    + intros [|[|k]] line Hk; [intros [= <-]; vm_compute; reflexivity.. | lia].
Qed.

Example show_lines_scenario_witness :
  show_lines (file_of target sample_scenario) =
    (Ok tt, World (files (file_of target sample_scenario))
       (stdout (file_of target sample_scenario) ++
          [lit "0001: A"; lit "0002: B"; lit "0003: FullyDefineSketch(...)";
           lit "0004: C"; lit "0005: D"])).
Proof.
  apply (show_lines_scenario sample_scenario (file_of target sample_scenario)).
  - reflexivity.
  - vm_compute. reflexivity.
Defined.

(** C9. A file of exactly one line, which contains the marker: the match
    is at index 0, the loop starts at index -2, [lines[-2]] is outside
    the one-element list, and the run ends with [IndexError] having
    printed nothing, neither a window nor the notice. *)
Theorem findContext_single_line_raises
    (path : string) (marker text line : str) (w : world) :
  files w !! path = Some (Chars text) ->
  splitlines text = [line] ->
  contains marker line = true ->
  range (0 - 2) (Z.min (0 + 3) (Z.of_nat (length [line]))) = [-2; -1; 0]%Z /\
  getitem [line] (-2) w = (Raise IndexError, w) /\
  findContext path marker w = (Raise IndexError, w).
Proof.
  intros Hf Hl Hc. split; [done|]. split; [done|].
  rewrite (findContext_run _ _ _ _ Hf), Hl. simpl. rewrite Hc.
  unfold window. apply for_each_raises_first. simpl. unfold wrap_index. simpl. lia.
Qed.

Example findContext_single_line_raises_witness :
  range (0 - 2) (Z.min (0 + 3) (Z.of_nat (length [lit "x = FullyDefineSketch();"]))) =
    [-2; -1; 0]%Z /\
  getitem [lit "x = FullyDefineSketch();"] (-2) (file_of target sample_one_line) =
    (Raise IndexError, file_of target sample_one_line) /\
  findContext target marker_literal (file_of target sample_one_line) =
    (Raise IndexError, file_of target sample_one_line).
Proof.
  apply (findContext_single_line_raises target marker_literal
           sample_one_line (lit "x = FullyDefineSketch();")
           (file_of target sample_one_line)).
  - reflexivity.
  - vm_compute. reflexivity.
  - vm_compute. reflexivity.
Defined.

(** C10. A file of at least two lines whose first match is at index
    [i < 2]: the loop runs [j] from [i - 2] (which is negative) up to
    [min(i + 3, n) - 1], every index is accepted, and the run prints one
    report per index.  For a negative [j] the report carries the line at
    index [n + j], counted from the end of the file, under the number
    [j + 1 <= 0], shown as [-001] or [0000]. *)
Theorem findContext_low_match_wraps
    (path : string) (marker text : str) (w : world) (i : nat) :
  files w !! path = Some (Chars text) ->
  2 <= length (splitlines text) ->
  i < 2 ->
  first_match marker (splitlines text) i ->
  let lines := splitlines text in
  let n := Z.of_nat (length lines) in
  let a := (Z.of_nat i - 2)%Z in
  let b := Z.min (Z.of_nat i + 3) n in
  findContext path marker w =
    (Ok tt, World (files w) (stdout w ++ (printed_at lines <$> range a b))) /\
  range a b = a :: range (a + 1) b /\
  (forall j, (a <= j < 0)%Z ->
     exists line, lines !! Z.to_nat (n + j) = Some line /\
                  printed_at lines j = format_04d (j + 1) ++ lit ": " ++ line /\
                  (j + 1 <= 0)%Z) /\
  format_04d (-1) = lit "-001" /\ format_04d 0 = lit "0000".
Proof.
  intros Hf Hn Hi Hfirst. cbv zeta.
  rewrite (findContext_run _ _ _ _ Hf).
  rewrite (scan_first_match marker _ i Hfirst).
  generalize dependent (splitlines text). intros lines Hn _.
  split; [|split; [|split; [|by vm_compute]]].
  - unfold window. apply for_each_reports.
    apply Forall_forall. intros j Hj. apply range_elem in Hj.
    unfold wrap_index. destruct (Z.ltb_spec j 0); lia.
  - apply range_cons. lia.
  - intros j Hj.
    destruct (lookup_lt_is_Some_2 lines (Z.to_nat (Z.of_nat (length lines) + j)))
      as [line Hl]; [lia|].
    exists line. split; [done|]. split; [|lia].
    unfold printed_at, report, wrap_index.
    destruct (Z.ltb_spec j 0); [|lia].
    replace (j + Z.of_nat (length lines))%Z with (Z.of_nat (length lines) + j)%Z by lia.
    by rewrite Hl.
Qed.

Example findContext_low_match_wraps_witness :
  findContext target marker_literal (file_of target sample_match_first) =
    (Ok tt, World (files (file_of target sample_match_first))
       (stdout (file_of target sample_match_first) ++
          (printed_at (splitlines sample_match_first) <$>
             range (Z.of_nat 0 - 2)
               (Z.min (Z.of_nat 0 + 3)
                  (Z.of_nat (length (splitlines sample_match_first))))))) /\
  range (Z.of_nat 0 - 2)
    (Z.min (Z.of_nat 0 + 3) (Z.of_nat (length (splitlines sample_match_first)))) =
    (Z.of_nat 0 - 2)%Z ::
      range (Z.of_nat 0 - 2 + 1)
        (Z.min (Z.of_nat 0 + 3) (Z.of_nat (length (splitlines sample_match_first)))) /\
  (forall j, (Z.of_nat 0 - 2 <= j < 0)%Z ->
     exists line,
       splitlines sample_match_first
         !! Z.to_nat (Z.of_nat (length (splitlines sample_match_first)) + j) = Some line /\
       printed_at (splitlines sample_match_first) j =
         format_04d (j + 1) ++ lit ": " ++ line /\
       (j + 1 <= 0)%Z) /\
  format_04d (-1) = lit "-001" /\ format_04d 0 = lit "0000".
Proof.
  apply (findContext_low_match_wraps target marker_literal sample_match_first
           (file_of target sample_match_first) 0).
  - reflexivity.
  - vm_compute. lia.
  - lia.
  - split.
    + eexists. split; [vm_compute; reflexivity | vm_compute; reflexivity].
    + intros k line Hk. lia.
Defined.

(** *** The window against the specification *)

Lemma seq_from_0 (a n : nat) : seq a n = (fun k => a + k) <$> seq 0 n.
Proof. by rewrite fmap_add_seq, Nat.add_0_r. Qed.

(** From index 2 on, the loop prints the window the specification
    describes: lines [i - 2] to [min(n - 1, i + 2)] under their 1-based
    numbers. *)
Lemma findContext_window_interior
    (path : string) (marker text : str) (w : world) (i : nat) :
  files w !! path = Some (Chars text) ->
  first_match marker (splitlines text) i ->
  2 <= i ->
  findContext path marker w =
    (Ok tt, World (files w)
       (stdout w ++ (show_numbered <$> spec_window (splitlines text) i))).
Proof.
  intros Hf Hfirst Hi.
  rewrite (findContext_run _ _ _ _ Hf).
  rewrite (scan_first_match marker _ i Hfirst).
  destruct Hfirst as [(line & Hl & _) _]. apply lookup_lt_Some in Hl.
  generalize dependent (splitlines text). intros lines Hl.
  unfold window. rewrite for_each_reports.
  - do 3 f_equal. unfold spec_window, range.
    replace (S (Nat.min (length lines - 1) (i + 2)) - (i - 2))
      with (Z.to_nat (Z.min (Z.of_nat i + 3) (Z.of_nat (length lines)) - (Z.of_nat i - 2)))
      by lia.
    rewrite (seq_from_0 (i - 2)), <- !list_fmap_compose.
    apply list_fmap_ext. intros _ k _. simpl.
    unfold printed_at, show_numbered, report, wrap_index. simpl.
    destruct (Z.ltb_spec (Z.of_nat i - 2 + Z.of_nat k) 0); [lia|].
    replace (Z.to_nat (Z.of_nat i - 2 + Z.of_nat k)) with (i - 2 + k) by lia.
    replace (Z.of_nat i - 2 + Z.of_nat k + 1)%Z with (Z.of_nat (S (i - 2 + k))) by lia.
    done.
  - apply Forall_forall. intros j Hj. apply range_elem in Hj.
    unfold wrap_index. destruct (Z.ltb_spec j 0); lia.
Qed.

(** Numbers 0 to 9999 are shown with exactly four digits; larger ones
    take the digits they need. *)
Lemma format_04d_width (z : Z) :
  (0 <= z <= 9999)%Z -> length (format_04d z) = 4.
Proof.
  intros Hz.
  assert (H : forallb (fun k => length (format_04d k) =? 4) (range 0 10000) = true)
    by (vm_compute; reflexivity).
  rewrite forallb_forall in H.
  apply Nat.eqb_eq, H, list_elem_of_In, range_elem. lia.
Qed.

Example format_04d_wide : format_04d 10000 = lit "10000".
Proof. reflexivity. Qed.

(** C3 at a match on the first line.  In the three-line file
    FullyDefineSketch(...), B, C only line 0 contains the marker; the
    specification's window is lines 1 to 3.  The script prints five
    reports instead: the last two lines of the file under the numbers
    -001 and 0000, and then the three lines of the window. *)
Theorem show_lines_window_not_clamped :
  splitlines sample_match_first =
    [lit "FullyDefineSketch(...)"; lit "B"; lit "C"] /\
  only_match marker_literal (splitlines sample_match_first) 0 /\
  show_numbered <$> spec_window (splitlines sample_match_first) 0 =
    [lit "0001: FullyDefineSketch(...)"; lit "0002: B"; lit "0003: C"] /\
  show_lines (file_of target sample_match_first) =
    (Ok tt, World {[ target := Chars sample_match_first ]}
       [lit "-001: B"; lit "0000: C";
        lit "0001: FullyDefineSketch(...)"; lit "0002: B"; lit "0003: C"]).
Proof.
  split; [by vm_compute|]. split; [|split; by vm_compute].
  split.
  - eexists. split; by vm_compute.
  - intros [|[|[|k]]] line Hk; [done | intros [= <-]; by vm_compute.. |].
    by vm_compute.
Qed.

(** * Further properties of the two scripts *)

(** ** The Patcher: what a run leaves alone *)

(** X1. Whatever the world and the platform, a run of the Patcher
    prints nothing, leaves every file other than its target as it was,
    and neither creates nor removes a file: the target is written only
    after it was read. *)
Theorem patch_touches_only_target
    (sys : os) (path : string) (old new : str) (w : world) :
  stdout (patch sys path old new w).2 = stdout w /\
  dom (files (patch sys path old new w).2) = dom (files w) /\
  forall p, p <> path -> files (patch sys path old new w).2 !! p = files w !! p.
Proof.
  unfold patch, mbind, M_bind, read_text.
  destruct (files w !! path) as [[raw|]|] eqn:Hf; simpl; [|done..].
  destruct (contains old (universal_newlines raw)); simpl; [|done].
  split; [done|]. split.
  - apply dom_insert_lookup_L. by rewrite Hf.
  - intros p Hp. by apply lookup_insert_ne.
Qed.

(** X2. A run on a world without the target file raises
    [FileNotFoundError] for both scripts and leaves the world as it was:
    the Patcher does not create the file and the Line Finder prints
    nothing. *)
Theorem missing_target_raises
    (sys : os) (path : string) (old new marker : str) (w : world) :
  files w !! path = None ->
  patch sys path old new w = (Raise (FileNotFoundError path), w) /\
  findContext path marker w = (Raise (FileNotFoundError path), w).
Proof.
  intros Hf. unfold patch, findContext, mbind, M_bind, read_text.
  by rewrite Hf.
Qed.

Example missing_target_raises_witness :
  patch Posix target old_block new_block (World ∅ []) =
    (Raise (FileNotFoundError target), World ∅ []) /\
  findContext target marker_literal (World ∅ []) =
    (Raise (FileNotFoundError target), World ∅ []).
Proof.
  apply (missing_target_raises Posix target old_block new_block marker_literal
           (World ∅ [])).
  reflexivity.
Defined.

(** X16. A target file whose bytes do not decode makes [read_text] raise
    [UnicodeDecodeError] in both scripts; the world is left as it was:
    the Patcher writes nothing and the Line Finder prints nothing. *)
Theorem undecodable_target_raises
    (sys : os) (path : string) (old new marker : str) (w : world) :
  files w !! path = Some Undecodable ->
  patch sys path old new w = (Raise UnicodeDecodeError, w) /\
  findContext path marker w = (Raise UnicodeDecodeError, w).
Proof.
  intros Hf. unfold patch, findContext, mbind, M_bind, read_text.
  by rewrite Hf.
Qed.

Example undecodable_target_raises_witness :
  patch Windows target old_block new_block (World {[ target := Undecodable ]} []) =
    (Raise UnicodeDecodeError, World {[ target := Undecodable ]} []) /\
  findContext target marker_literal (World {[ target := Undecodable ]} []) =
    (Raise UnicodeDecodeError, World {[ target := Undecodable ]} []).
Proof.
  apply (undecodable_target_raises Windows target old_block new_block marker_literal
           (World {[ target := Undecodable ]} [])).
  reflexivity.
Defined.

(** X3. After a successful run with a [new] free of carriage returns,
    the file is the patched text with every LF written as the line
    separator of the platform, and reading it again yields the patched
    text: it has [new] at the offset where [old] first occurred in the
    text read before, agrees with that text before the offset, and
    differs from it in length by the difference of the two blocks'
    lengths. *)
Theorem patch_installs_new
    (sys : os) (path : string) (old new raw : str) (w : world) (i : nat) :
  no_cr new ->
  files w !! path = Some (Chars raw) ->
  find old (universal_newlines raw) = Some i ->
  exists patched : str,
    patch sys path old new w =
      (Ok tt, World (<[path := Chars (to_disk sys patched)]> (files w)) (stdout w)) /\
    universal_newlines (to_disk sys patched) = patched /\
    startswith new (drop i patched) = true /\
    contains new patched = true /\
    take i patched = take i (universal_newlines raw) /\
    length patched + length old = length (universal_newlines raw) + length new.
Proof.
  intros Hnew Hf F. exists (replace1 old new (universal_newlines raw)).
  rewrite (patch_run _ _ _ _ _ _ Hf).
  rewrite (proj2 (contains_true old _) (ex_intro _ i F)).
  split; [done|]. split; [by apply patched_reads_back|].
  generalize dependent (universal_newlines raw). intros text F.
  destruct (find_split _ _ _ F) as [Hsplit Hlen].
  destruct (find_Some _ _ _ F) as (_ & Hfit & _).
  unfold replace1. rewrite F.
  assert (Hocc : startswith new
            (drop i (take i text ++ new ++ drop (i + length old) text)) = true).
  { rewrite <- Hlen at 1. rewrite drop_app_length. apply startswith_app. }
  split; [done|]. split; [by apply (contains_occurrence _ _ i)|]. split.
  - rewrite <- Hlen at 1. by rewrite take_app_length.
  - rewrite !length_app, length_take, length_drop. lia.
Qed.

Example patch_installs_new_witness :
  exists patched : str,
    patch Windows target old_block new_block (file_of target sample_crlf) =
      (Ok tt, World (<[target := Chars (to_disk Windows patched)]>
                       (files (file_of target sample_crlf)))
                    (stdout (file_of target sample_crlf))) /\
    universal_newlines (to_disk Windows patched) = patched /\
    startswith new_block (drop 2 patched) = true /\
    contains new_block patched = true /\
    take 2 patched = take 2 (universal_newlines sample_crlf) /\
    length patched + length old_block =
      length (universal_newlines sample_crlf) + length new_block.
Proof.
  apply (patch_installs_new Windows target old_block new_block sample_crlf
           (file_of target sample_crlf) 2).
  - apply no_cr_check. vm_compute. reflexivity.
  - reflexivity.
  - vm_compute. reflexivity.
Defined.

(** ** The Patcher: running it again and again *)

(** With [old] and [new] separated, an occurrence of [old] in the patched
    text lies wholly behind the inserted [new]. *)
Lemma separated_patched_behind (old new pre post : str) (k : nat) :
  separated old new = true ->
  (forall j, j < length pre -> startswith old (drop j (pre ++ old ++ post)) = false) ->
  startswith old (drop k (pre ++ new ++ post)) = true ->
  length pre + length new <= k /\
  startswith old (drop (k - length pre - length new) post) = true.
Proof.
  intros Hsep Hpre Hs.
  destruct (decide (length pre + length new <= k)) as [Hk|Hk].
  - split; [done|].
    replace k with (length pre + (length new + (k - length pre - length new)))
      in Hs by lia.
    rewrite drop_app_add' in Hs by done. by rewrite drop_app_add' in Hs by done.
  - exfalso. destruct (decide (k < length pre)) as [Hlt|Hge].
    + destruct (decide (k + length old <= length pre)) as [Hin|Hout].
      * pose proof (Hpre k Hlt) as Hno.
        rewrite drop_app_le in Hs, Hno by lia.
        rewrite startswith_app_long in Hs, Hno by (rewrite length_drop; lia).
        congruence.
      * rewrite drop_app_le in Hs by lia.
        apply startswith_drop_app in Hs; [|rewrite length_drop; lia].
        apply startswith_agree in Hs.
        rewrite separated_before in Hs; [done | done |].
        rewrite length_drop. lia.
    + replace k with (length pre + (k - length pre)) in Hs by lia.
      rewrite drop_app_add' in Hs by done.
      rewrite drop_app_le in Hs by lia.
      apply startswith_agree in Hs.
      rewrite separated_inside in Hs; [done | done | lia].
Qed.

Lemma occurrences_NoDup (sub text : str) : NoDup (occurrences sub text).
Proof. unfold occurrences. apply NoDup_filter, NoDup_seq. Qed.

Lemma separated_fewer (old new text : str) (i : nat) :
  separated old new = true ->
  find old text = Some i ->
  length (occurrences old (replace1 old new text)) < length (occurrences old text).
Proof.
  intros Hsep F.
  pose proof (separated_nonempty _ _ Hsep) as Hne.
  destruct (find_split _ _ _ F) as [Hsplit Hlen].
  destruct (find_Some _ _ _ F) as (Hocc & Hfit & Hmin).
  set (pre := take i text) in *. set (post := drop (i + length old) text) in *.
  assert (Hp : replace1 old new text = pre ++ new ++ post).
  { rewrite Hsplit at 1. apply replace1_at. rewrite <- Hsplit. by rewrite Hlen. }
  rewrite Hp.
  assert (Hbehind : forall k, k ∈ occurrences old (pre ++ new ++ post) ->
            length pre + length new <= k /\
            k + length old - length new ∈ occurrences old text).
  { intros k [Hk Hkl]%occurrences_elem.
    apply separated_patched_behind in Hk as [Hge Hk]; [|done|].
    - split; [done|]. apply occurrences_elem.
      rewrite !length_app in Hkl. split.
      + rewrite Hsplit.
        replace (k + length old - length new)
          with (length pre + (length old + (k - length pre - length new))) by lia.
        rewrite drop_app_add' by done. by rewrite drop_app_add' by done.
      + rewrite Hsplit, !length_app. lia.
    - intros j Hj. rewrite <- Hsplit. apply Hmin. lia. }
  set (f := fun k => k + length old - length new).
  assert (Hsub : i :: (f <$> occurrences old (pre ++ new ++ post))
                   ⊆+ occurrences old text).
  { apply NoDup_submseteq.
    - apply NoDup_cons. split.
      + intros (k & Hk & Hin)%list_elem_of_fmap.
        apply Hbehind in Hin as [Hge _]. unfold f in Hk. lia.
      + apply NoDup_fmap_2_strong; [|apply occurrences_NoDup].
        intros x y Hx Hy Hxy.
        apply Hbehind in Hx as [Hx _]. apply Hbehind in Hy as [Hy _].
        unfold f in Hxy. lia.
    - intros x [->|(k & -> & Hin)%list_elem_of_fmap]%elem_of_cons.
      + apply occurrences_elem. split; [done | lia].
      + by apply Hbehind. }
  apply submseteq_length in Hsub. simpl in Hsub.
  rewrite length_fmap in Hsub. lia.
Qed.

(** X4. With [old] and [new] separated and [new] free of carriage
    returns, every successful run leaves strictly fewer offsets at which
    [old] occurs in the text of the file than it found. *)
Theorem patch_removes_an_occurrence
    (sys : os) (path : string) (old new raw : str) (w : world) :
  separated old new = true ->
  no_cr new ->
  files w !! path = Some (Chars raw) ->
  contains old (universal_newlines raw) = true ->
  exists patched : str,
    patch sys path old new w =
      (Ok tt, World (<[path := Chars patched]> (files w)) (stdout w)) /\
    length (occurrences old (universal_newlines patched))
      < length (occurrences old (universal_newlines raw)).
Proof.
  intros Hsep Hnew Hf Hc.
  exists (to_disk sys (replace1 old new (universal_newlines raw))).
  rewrite (patch_run _ _ _ _ _ _ Hf), Hc. split; [done|].
  rewrite patched_reads_back by done.
  apply contains_true in Hc as [i F]. by apply (separated_fewer old new _ i).
Qed.

Example patch_removes_an_occurrence_witness :
  exists patched : str,
    patch Windows target old_block new_block (file_of target sample_crlf) =
      (Ok tt, World (<[target := Chars patched]> (files (file_of target sample_crlf)))
                    (stdout (file_of target sample_crlf))) /\
    length (occurrences old_block (universal_newlines patched))
      < length (occurrences old_block (universal_newlines sample_crlf)).
Proof.
  apply (patch_removes_an_occurrence Windows target old_block new_block sample_crlf
           (file_of target sample_crlf)).
  - vm_compute. reflexivity.
  - apply no_cr_check. vm_compute. reflexivity.
  - reflexivity.
  - vm_compute. reflexivity.
Defined.

Lemma occurrences_nil_absent (old text : str) :
  occurrences old text = [] -> contains old text = false.
Proof.
  intros Hnil. apply contains_false.
  destruct (find old text) as [i|] eqn:F; [|done].
  destruct (find_Some _ _ _ F) as (Hocc & Hfit & _).
  assert (Hin : i ∈ occurrences old text) by (apply occurrences_elem; split; [done | lia]).
  rewrite Hnil in Hin. by apply elem_of_nil in Hin.
Qed.

Lemma rerun_raises
    (n : nat) (sys : os) (path : string) (old new raw : str) (w : world) :
  separated old new = true ->
  no_cr new ->
  files w !! path = Some (Chars raw) ->
  length (occurrences old (universal_newlines raw)) <= n ->
  exists (w' : world) (raw' : str),
    rerun (S n) sys path old new w = (Raise (SystemExit pattern_not_found), w') /\
    files w' !! path = Some (Chars raw') /\
    contains old (universal_newlines raw') = false.
Proof.
  intros Hsep Hnew. revert raw w.
  induction n as [|n IH]; intros raw w Hf Hn.
  - exists w, raw.
    assert (Hc : contains old (universal_newlines raw) = false).
    { apply occurrences_nil_absent.
      destruct (occurrences old (universal_newlines raw)); [done | simpl in Hn; lia]. }
    cbn [rerun]. unfold mbind at 1, M_bind at 1.
    by rewrite (patch_run _ _ _ _ _ _ Hf), Hc.
  - destruct (contains old (universal_newlines raw)) eqn:Hc.
    + pose proof Hc as Hc'. apply contains_true in Hc' as [i F].
      pose proof (separated_fewer old new _ i Hsep F) as Hlt.
      set (patched := to_disk sys (replace1 old new (universal_newlines raw))).
      destruct (IH patched (World (<[path := Chars patched]> (files w)) (stdout w)))
        as (w' & raw' & Hrun & Hf' & Hc').
      * simpl. apply lookup_insert_eq.
      * unfold patched. rewrite patched_reads_back by done. lia.
      * exists w', raw'. split; [|done].
        change (rerun (S (S n)) sys path old new)
          with (patch sys path old new;; rerun (S n) sys path old new).
        unfold mbind at 1, M_bind at 1.
        by rewrite (patch_run _ _ _ _ _ _ Hf), Hc.
    + exists w, raw.
      change (rerun (S (S n)) sys path old new)
        with (patch sys path old new;; rerun (S n) sys path old new).
      unfold mbind at 1, M_bind at 1.
      by rewrite (patch_run _ _ _ _ _ _ Hf), Hc.
Qed.

(** X5. With [old] and [new] separated and [new] free of carriage
    returns, the Patcher cannot be applied more often than [old] occurs:
    started once more than there are offsets at which [old] occurs in
    the text of the file, the row of runs ends with
    [SystemExit('pattern not found')], and the text of the file it
    leaves no longer contains [old]. *)
Theorem rerun_stops_at_the_guard
    (sys : os) (path : string) (old new raw : str) (w : world) :
  separated old new = true ->
  no_cr new ->
  files w !! path = Some (Chars raw) ->
  exists (w' : world) (raw' : str),
    rerun (S (length (occurrences old (universal_newlines raw)))) sys path old new w =
      (Raise (SystemExit pattern_not_found), w') /\
    files w' !! path = Some (Chars raw') /\
    contains old (universal_newlines raw') = false.
Proof.
  intros Hsep Hnew Hf. by apply (rerun_raises _ sys path old new raw w).
Qed.

Example rerun_stops_at_the_guard_witness :
  exists (w' : world) (raw' : str),
    rerun (S (length (occurrences old_block (universal_newlines sample_two_blocks))))
      Posix target old_block new_block (file_of target sample_two_blocks) =
      (Raise (SystemExit pattern_not_found), w') /\
    files w' !! target = Some (Chars raw') /\
    contains old_block (universal_newlines raw') = false.
Proof.
  apply (rerun_stops_at_the_guard Posix target old_block new_block sample_two_blocks
           (file_of target sample_two_blocks)).
  - vm_compute. reflexivity.
  - apply no_cr_check. vm_compute. reflexivity.
  - reflexivity.
Defined.

(** X6. The script itself, on a file whose text as read holds its old
    block exactly once, whatever the line endings on disk and the
    platform: the first run succeeds and writes the patched text, and a
    second run stops at the guard without writing. *)
Theorem apply_rect_fix_second_run (sys : os) (raw : str) (w : world) (i : nat) :
  files w !! target = Some (Chars raw) ->
  occurrences old_block (universal_newlines raw) = [i] ->
  exists w1 : world,
    apply_rect_fix sys w = (Ok tt, w1) /\
    files w1 !! target =
      Some (Chars (to_disk sys (replace1 old_block new_block (universal_newlines raw)))) /\
    apply_rect_fix sys w1 = (Raise (SystemExit pattern_not_found), w1).
Proof.
  intros Hf Hocc. unfold apply_rect_fix.
  destruct (separated_single _ _ _ _ blocks_separated Hocc) as [Hc Hgone].
  eexists. split; [by rewrite (patch_run _ _ _ _ _ _ Hf), Hc|].
  split; [simpl; apply lookup_insert_eq|].
  erewrite patch_run; [|simpl; apply lookup_insert_eq].
  by rewrite (patched_reads_back _ _ _ _ new_block_no_cr), Hgone.
Qed.

Example apply_rect_fix_second_run_witness :
  exists w1 : world,
    apply_rect_fix Windows (file_of target sample_crlf_block) = (Ok tt, w1) /\
    files w1 !! target =
      Some (Chars (to_disk Windows
                     (replace1 old_block new_block (universal_newlines sample_crlf_block)))) /\
    apply_rect_fix Windows w1 = (Raise (SystemExit pattern_not_found), w1).
Proof.
  apply (apply_rect_fix_second_run Windows sample_crlf_block
           (file_of target sample_crlf_block) 1).
  - reflexivity.
  - vm_compute. reflexivity.
Defined.

(** ** The Line Finder: how a run can end *)

Lemma first_match_or_none (marker : str) (lines : list str) :
  (exists i, first_match marker lines i) \/
  Forall (fun line => contains marker line = false) lines.
Proof.
  induction lines as [|l lines IH].
  - right. constructor.
  - destruct (contains marker l) eqn:Hl.
    + left. exists 0. split; [by exists l | intros k line Hk; lia].
    + destruct IH as [[i [(line & Hi & Hc) Hbefore]]|Hnone].
      * left. exists (S i). split; [by exists line|].
        intros [|k] line' Hk; simpl; [by intros [= <-] | apply Hbefore; lia].
      * right. by constructor.
Qed.

(** What the loop body has printed when the loop is over, whether it ran
    to its end or raised on the way: one report for each index of an
    initial stretch of the indices. *)
Lemma for_each_prints (lines : list str) (js : list Z) (w : world) :
  exists js' : list Z,
    js' `prefix_of` js /\
    (for_each js (fun j => line ← getitem lines j; print (report j line)) w).2 =
      World (files w) (stdout w ++ (printed_at lines <$> js')).
Proof.
  revert w. induction js as [|j js IH]; intros w.
  - exists []. split; [done|]. simpl. rewrite app_nil_r. by destruct w.
  - destruct (decide (0 <= wrap_index (Z.of_nat (length lines)) j
                        < Z.of_nat (length lines))%Z) as [Hin|Hout].
    + destruct (IH (World (files w) (stdout w ++ [printed_at lines j])))
        as (js' & Hpre & Hrun).
      exists (j :: js'). split; [by apply prefix_cons|].
      simpl. unfold mbind at 1, M_bind at 1. unfold mbind at 1, M_bind at 1.
      rewrite (getitem_inside _ _ _ Hin). simpl.
      unfold printed_at in Hrun at 1. rewrite Hrun. simpl.
      by rewrite <- app_assoc.
    + exists []. split; [apply prefix_nil|].
      rewrite (for_each_raises_first _ _ _ _ Hout). simpl.
      rewrite app_nil_r. by destruct w.
Qed.

Lemma range_length (a b : Z) : length (range a b) = Z.to_nat (b - a).
Proof. unfold range. by rewrite length_fmap, length_seq. Qed.

(** X7. How a run of the Line Finder ends is settled by the file.  A
    missing file raises [FileNotFoundError] and bytes that do not decode
    raise [UnicodeDecodeError].  A file that decodes fails in exactly one
    case: it has a single line and that line contains the marker; then
    the run raises [IndexError].  On every other file the run ends
    normally. *)
Theorem findContext_outcome (path : string) (marker : str) (w : world) :
  (findContext path marker w).1 =
    match files w !! path with
    | None => Raise (FileNotFoundError path)
    | Some Undecodable => Raise UnicodeDecodeError
    | Some (Chars raw) =>
        match splitlines raw with
        | [line] => if contains marker line then Raise IndexError else Ok tt
        | _ => Ok tt
        end
    end.
Proof.
  destruct (files w !! path) as [[raw|]|] eqn:Hf.
  - rewrite (findContext_run _ _ _ _ Hf).
    generalize (splitlines raw). intros lines.
    destruct (first_match_or_none marker lines) as [[i Hfirst]|Hnone].
    + rewrite (scan_first_match _ _ _ Hfirst).
      destruct Hfirst as [(line & Hi & Hc) Hbefore].
      pose proof (lookup_lt_Some _ _ _ Hi) as Hlt.
      destruct lines as [|l1 [|l2 lines]]; simpl in Hlt; [lia | |].
      * assert (i = 0) as -> by lia. simpl in Hi. injection Hi as ->.
        rewrite Hc. unfold window. rewrite range_cons by (simpl; lia).
        rewrite for_each_raises_first; [done|]. simpl. unfold wrap_index. simpl. lia.
      * unfold window. rewrite for_each_reports; [done|].
        apply Forall_forall. intros j Hj. apply range_elem in Hj.
        unfold wrap_index. simpl length in *.
        destruct (Z.ltb_spec j 0); lia.
    + rewrite <- (app_nil_r lines) at 2. rewrite scan_skip by done. simpl.
      destruct lines as [|l1 [|l2 lines]]; try done.
      apply Forall_inv in Hnone. by rewrite Hnone.
  - unfold findContext, mbind, M_bind, read_text. by rewrite Hf.
  - unfold findContext, mbind, M_bind, read_text. by rewrite Hf.
Qed.

Lemma scan_prints_at_most_5 (marker : str) (lines rest : list str) (idx : Z) (w : world) :
  exists out : list str,
    stdout (scan marker lines idx rest w).2 = stdout w ++ out /\ length out <= 5.
Proof.
  revert idx. induction rest as [|line rest IH]; intros idx; simpl.
  - exists [no_match]. split; [done | simpl; lia].
  - destruct (contains marker line); [|apply IH].
    unfold window.
    destruct (for_each_prints lines
                (range (idx - 2) (Z.min (idx + 3) (Z.of_nat (length lines)))) w)
      as (js' & Hpre & Hrun).
    exists (printed_at lines <$> js'). rewrite Hrun. split; [done|].
    rewrite length_fmap. apply prefix_length in Hpre.
    rewrite range_length in Hpre. lia.
Qed.

(** X8. Whatever the world and the marker, and however the run ends
    (window, notice, missing or undecodable file, indexing error), the
    Line Finder keeps what was on the console and adds at most five
    strings to it. *)
Theorem findContext_prints_at_most_5 (path : string) (marker : str) (w : world) :
  exists out : list str,
    stdout (findContext path marker w).2 = stdout w ++ out /\ length out <= 5.
Proof.
  unfold findContext, mbind, M_bind, read_text.
  destruct (files w !! path) as [[raw|]|].
  - apply scan_prints_at_most_5.
  - exists []. split; [by rewrite app_nil_r | simpl; lia].
  - exists []. split; [by rewrite app_nil_r | simpl; lia].
Qed.

(** X9. When the first line that contains the marker has index
    [i >= 2], the run ends normally and prints lines [i - 2] to
    [min(n - 1, i + 2)] of the file, in order, each under its 1-based
    number; lines behind the first match play no part in the choice of
    the window. *)
Theorem findContext_window_from_third_line
    (path : string) (marker text : str) (w : world) (i : nat) :
  files w !! path = Some (Chars text) ->
  first_match marker (splitlines text) i ->
  2 <= i ->
  findContext path marker w =
    (Ok tt, World (files w)
       (stdout w ++ ((fun k => format_04d (Z.of_nat (S k)) ++ lit ": " ++
                                default [] (splitlines text !! k)) <$>
                       seq (i - 2) (S (Nat.min (length (splitlines text) - 1) (i + 2))
                                    - (i - 2))))).
Proof.
  intros Hf Hfirst Hi.
  rewrite (findContext_window_interior _ _ _ _ _ Hf Hfirst Hi).
  unfold spec_window. by rewrite <- list_fmap_compose.
Qed.

Example findContext_window_from_third_line_witness :
  findContext target marker_literal (file_of target (unlines sample_window_lines)) =
    (Ok tt, World (files (file_of target (unlines sample_window_lines)))
       (stdout (file_of target (unlines sample_window_lines)) ++
          ((fun k => format_04d (Z.of_nat (S k)) ++ lit ": " ++
                       default [] (splitlines (unlines sample_window_lines) !! k)) <$>
             seq (3 - 2)
               (S (Nat.min (length (splitlines (unlines sample_window_lines)) - 1) (3 + 2))
                - (3 - 2))))).
Proof.
  apply (findContext_window_from_third_line target marker_literal
           (unlines sample_window_lines)
           (file_of target (unlines sample_window_lines)) 3).
  - reflexivity.
  - split.
    + eexists. split; [vm_compute; reflexivity | vm_compute; reflexivity].
    + intros [|[|[|k]]] line Hk; [intros [= <-]; by vm_compute.. | lia].
  - lia.
Defined.

(** ** The Line Finder: lines and line endings *)

Lemma splitlines_from_line_crlf (line cur rest : str) :
  Forall (fun c => is_linebreak c = false) line ->
  splitlines_from cur (line ++ CR :: LF :: rest) =
    (reverse cur ++ line) :: splitlines_from [] rest.
Proof.
  intros H. revert cur. induction H as [|c line Hc _ IH]; intros cur.
  - rewrite app_nil_r. cbn [app]. by rewrite splitlines_from_break.
  - cbn [app]. rewrite splitlines_from_char by done.
    rewrite IH, reverse_cons, <- app_assoc. done.
Qed.

Lemma splitlines_unlines_crlf (lines : list str) :
  Forall one_line lines -> splitlines (unlines_crlf lines) = lines.
Proof.
  unfold splitlines, unlines_crlf.
  induction 1 as [|line lines Hl _ IH]; [done|].
  rewrite fmap_cons. cbn [concat]. rewrite <- app_assoc.
  change ([CR; LF] ++ ?r) with (CR :: LF :: r).
  by rewrite splitlines_from_line_crlf, IH.
Qed.

(** X10. Lines without a line boundary survive the round trip through a
    file: written out with a LF or with CR LF behind each of them, they
    are what [splitlines] reads back. *)
Theorem splitlines_reads_back (lines : list str) :
  Forall one_line lines ->
  splitlines (unlines lines) = lines /\
  splitlines (unlines_crlf lines) = lines.
Proof.
  intros H. split; [by apply splitlines_unlines | by apply splitlines_unlines_crlf].
Qed.

Example splitlines_reads_back_witness :
  splitlines (unlines sample_window_lines) = sample_window_lines /\
  splitlines (unlines_crlf sample_window_lines) = sample_window_lines.
Proof.
  apply (splitlines_reads_back sample_window_lines).
  unfold sample_window_lines, one_line. repeat constructor.
Defined.

(** The outcome of the scan and the strings it prints are settled by the
    lines alone. *)
Lemma scan_by_lines (marker : str) (lines : list str) :
  exists (r : result unit) (out : list str),
    forall w, scan marker lines 0 lines w = (r, World (files w) (stdout w ++ out)).
Proof.
  destruct (first_match_or_none marker lines) as [[i Hfirst]|Hnone].
  - pose proof (scan_first_match _ _ _ Hfirst) as Hscan.
    destruct Hfirst as [(line & Hi & Hc) Hbefore].
    pose proof (lookup_lt_Some _ _ _ Hi) as Hlt.
    destruct (decide (length lines = 1)) as [H1|H1].
    + exists (Raise IndexError), []. intros w. rewrite Hscan.
      unfold window. rewrite range_cons by lia.
      rewrite for_each_raises_first.
      * rewrite app_nil_r. by destruct w.
      * unfold wrap_index. destruct (Z.ltb_spec (Z.of_nat i - 2) 0); lia.
    + exists (Ok tt),
        (printed_at lines <$>
           range (Z.of_nat i - 2) (Z.min (Z.of_nat i + 3) (Z.of_nat (length lines)))).
      intros w. rewrite Hscan. unfold window. apply for_each_reports.
      apply Forall_forall. intros j Hj. apply range_elem in Hj.
      unfold wrap_index. destruct (Z.ltb_spec j 0); lia.
  - exists (Ok tt), [no_match]. intros w.
    rewrite <- (app_nil_r lines) at 2. by rewrite scan_skip.
Qed.

(** X11. The Line Finder does not depend on the line-ending convention
    of the file: for lines without a line boundary, the file that closes
    them by LF and the file that closes them by CR LF give the same
    outcome and the same strings on the console. *)
Theorem findContext_same_for_lf_and_crlf
    (path : string) (marker : str) (lines : list str) :
  Forall one_line lines ->
  exists (r : result unit) (out : list str),
    forall (fs : gmap string content) (console : list str),
      findContext path marker (World (<[path := Chars (unlines lines)]> fs) console) =
        (r, World (<[path := Chars (unlines lines)]> fs) (console ++ out)) /\
      findContext path marker (World (<[path := Chars (unlines_crlf lines)]> fs) console) =
        (r, World (<[path := Chars (unlines_crlf lines)]> fs) (console ++ out)).
Proof.
  intros Hl. destruct (scan_by_lines marker lines) as (r & out & Hscan).
  exists r, out. intros fs console. split.
  - rewrite (findContext_run path marker (unlines lines)) by (simpl; apply lookup_insert_eq).
    rewrite splitlines_unlines by done. apply Hscan.
  - rewrite (findContext_run path marker (unlines_crlf lines))
      by (simpl; apply lookup_insert_eq).
    rewrite splitlines_unlines_crlf by done. apply Hscan.
Qed.

Example findContext_same_for_lf_and_crlf_witness :
  exists (r : result unit) (out : list str),
    forall (fs : gmap string content) (console : list str),
      findContext target marker_literal
        (World (<[target := Chars (unlines sample_window_lines)]> fs) console) =
        (r, World (<[target := Chars (unlines sample_window_lines)]> fs) (console ++ out)) /\
      findContext target marker_literal
        (World (<[target := Chars (unlines_crlf sample_window_lines)]> fs) console) =
        (r, World (<[target := Chars (unlines_crlf sample_window_lines)]> fs)
              (console ++ out)).
Proof.
  apply (findContext_same_for_lf_and_crlf target marker_literal sample_window_lines).
  unfold sample_window_lines, one_line. repeat constructor.
Defined.

(** ** The Line Finder: what a report looks like *)

Lemma splitlines_from_one_line (n : nat) (t cur : str) :
  length t <= n -> one_line cur -> Forall one_line (splitlines_from cur t).
Proof.
  revert t cur. induction n as [|n IH]; intros t cur Hn Hcur.
  - destruct t; [|simpl in Hn; lia]. simpl.
    destruct cur; [constructor|]. repeat constructor. by apply Forall_reverse.
  - destruct t as [|c t].
    + simpl. destruct cur; [constructor|]. repeat constructor. by apply Forall_reverse.
    + simpl in Hn. destruct (is_linebreak c) eqn:Hc.
      * rewrite splitlines_from_break by done. constructor.
        -- by apply Forall_reverse.
        -- apply IH; [|constructor].
           destruct (after_break_split c t) as (_ & _ & Hle). lia.
      * rewrite splitlines_from_char by done.
        apply IH; [lia | by constructor].
Qed.

Lemma splitlines_one_line (text : str) : Forall one_line (splitlines text).
Proof. apply (splitlines_from_one_line (length text)); [done | constructor]. Qed.

Lemma uint_one_line (u : Decimal.uint) : one_line (lit (NilEmpty.string_of_uint u)).
Proof. induction u; simpl; constructor; done. Qed.

Lemma digits_one_line (n : N) : one_line (digits n).
Proof.
  unfold digits, NilZero.string_of_uint.
  destruct (N.to_uint n); try apply uint_one_line.
  by repeat constructor.
Qed.

Lemma format_04d_one_line (z : Z) : one_line (format_04d z).
Proof.
  unfold format_04d. apply Forall_app. split.
  - destruct (z <? 0)%Z; by repeat constructor.
  - apply Forall_app. split; [|apply digits_one_line].
    by apply Forall_replicate.
Qed.

Lemma printed_at_one_line (lines : list str) (j : Z) :
  Forall one_line lines -> one_line (printed_at lines j).
Proof.
  intros Hl. unfold printed_at, report.
  apply Forall_app. split; [apply format_04d_one_line|].
  apply Forall_app. split; [by repeat constructor|].
  destruct (lines !! _) as [line|] eqn:E; simpl; [|constructor].
  by apply (Forall_lookup_1 _ _ _ _ Hl E).
Qed.

Lemma scan_prints_single_lines
    (marker : str) (lines rest : list str) (idx : Z) (w : world) :
  Forall one_line lines ->
  Forall one_line (stdout w) ->
  Forall one_line (stdout (scan marker lines idx rest w).2).
Proof.
  intros Hl Hw. revert idx. induction rest as [|line rest IH]; intros idx; simpl.
  - apply Forall_app. split; [done|]. by repeat constructor.
  - destruct (contains marker line); [|apply IH].
    unfold window.
    destruct (for_each_prints lines
                (range (idx - 2) (Z.min (idx + 3) (Z.of_nat (length lines)))) w)
      as (js' & _ & Hrun).
    rewrite Hrun. simpl. apply Forall_app. split; [done|].
    apply Forall_fmap, Forall_forall. intros j _. by apply printed_at_one_line.
Qed.

(** X12. Every string the Line Finder prints is free of line
    boundaries, so each report and the notice take one line of the
    console: a console of single lines stays one, however the run ends. *)
Theorem findContext_prints_single_lines (path : string) (marker : str) (w : world) :
  Forall one_line (stdout w) ->
  Forall one_line (stdout (findContext path marker w).2).
Proof.
  intros Hw. unfold findContext, mbind, M_bind, read_text.
  destruct (files w !! path) as [[raw|]|]; [|done..].
  apply scan_prints_single_lines; [apply splitlines_one_line | done].
Qed.

Example findContext_prints_single_lines_witness :
  Forall one_line
    (stdout (findContext target marker_literal (file_of target sample_scenario)).2).
Proof.
  apply (findContext_prints_single_lines target marker_literal
           (file_of target sample_scenario)).
  simpl. constructor.
Defined.

(** X13. For the line numbers 1 to 9999 a report is the four digits of
    the number, a colon, a space and the line: its length is that of the
    line plus six, so the lines shown start in the same column. *)
Theorem report_is_aligned (j : Z) (line : str) :
  (0 <= j < 9999)%Z ->
  length (report j line) = 6 + length line /\
  drop 4 (report j line) = lit ": " ++ line.
Proof.
  intros Hj. unfold report.
  assert (Hw : length (format_04d (j + 1)) = 4) by (apply format_04d_width; lia).
  split.
  - rewrite !length_app, Hw. simpl. lia.
  - rewrite <- Hw. by rewrite drop_app_length.
Qed.

Example report_is_aligned_witness :
  length (report 41 (lit "int x;")) = 6 + length (lit "int x;") /\
  drop 4 (report 41 (lit "int x;")) = lit ": " ++ lit "int x;".
Proof.
  apply (report_is_aligned 41 (lit "int x;")). lia.
Defined.

(** ** The Line Finder: a marker in the text is a marker in a line *)

Lemma contains_iff_split (a b : str) :
  contains a b = true <-> exists u v, b = u ++ a ++ v.
Proof.
  split.
  - intros [i F]%contains_true.
    destruct (find_split _ _ _ F) as [Hsplit _]. eauto.
  - intros (u & v & ->). apply (contains_occurrence _ _ (length u)).
    rewrite drop_app_length. apply startswith_app.
Qed.

Lemma splitlines_from_first_line (b cur : str) :
  cur <> [] -> exists l rest, splitlines_from cur b = (reverse cur ++ l) :: rest.
Proof.
  revert cur. induction b as [|c b IH]; intros cur Hcur.
  - exists [], []. simpl. rewrite app_nil_r. by destruct cur.
  - destruct (is_linebreak c) eqn:Hc.
    + rewrite splitlines_from_break by done. eexists [], _. by rewrite app_nil_r.
    + rewrite splitlines_from_char by done.
      destruct (IH (c :: cur)) as (l & rest & ->); [done|].
      exists (c :: l), rest. by rewrite reverse_cons, <- app_assoc.
Qed.

Lemma splitlines_from_consume (s b cur : str) :
  one_line s -> splitlines_from cur (s ++ b) = splitlines_from (reverse s ++ cur) b.
Proof.
  intros H. revert cur. induction H as [|c s Hc _ IH]; intros cur; [done|].
  cbn [app]. rewrite splitlines_from_char by done.
  by rewrite IH, reverse_cons, <- app_assoc.
Qed.

(** A stretch of the text without line boundary lies within one line. *)
Lemma segment_in_line (n : nat) (a s b cur : str) :
  length a <= n -> one_line s -> s <> [] ->
  exists l, l ∈ splitlines_from cur (a ++ s ++ b) /\ contains s l = true.
Proof.
  intros Hn Hs Hne. revert a cur Hn.
  assert (Hbase : forall cur, exists l,
            l ∈ splitlines_from cur (s ++ b) /\ contains s l = true).
  { intros cur. rewrite splitlines_from_consume by done.
    destruct (splitlines_from_first_line b (reverse s ++ cur)) as (l & rest & ->).
    - destruct s; [done | by rewrite reverse_cons, <- app_assoc; destruct (reverse s)].
    - eexists. split; [apply list_elem_of_here|].
      rewrite reverse_app, reverse_involutive, <- app_assoc.
      apply contains_iff_split. eauto. }
  induction n as [|n IH]; intros a cur Hn.
  - destruct a; [apply Hbase | simpl in Hn; lia].
  - destruct a as [|c a]; [apply Hbase|]. simpl in Hn. cbn [app].
    destruct (is_linebreak c) eqn:Hc.
    + rewrite splitlines_from_break by done.
      assert (Hrest : exists l, l ∈ splitlines_from [] (after_break c (a ++ s ++ b)) /\
                                contains s l = true).
      { destruct a as [|x a]; cbn [app after_break].
        - destruct s as [|x s]; [done|]. cbn [app after_break].
          apply Forall_cons in Hs as [Hx Hs].
          destruct (N.eqb_spec x LF) as [->|_]; [done|].
          rewrite andb_false_r. apply (IH [] []). simpl. lia.
        - simpl in Hn. destruct ((c =? CR)%N && (x =? LF)%N).
          + apply (IH a []). lia.
          + apply (IH (x :: a) []). simpl. lia. }
      destruct Hrest as (l & Hin & Hl). exists l. split; [|done].
      by apply list_elem_of_further.
    + rewrite splitlines_from_char by done. apply IH. lia.
Qed.

(** Every line is a stretch of the text. *)
Lemma lines_are_substrings (n : nat) (t cur l : str) :
  length t <= n -> l ∈ splitlines_from cur t ->
  exists u v, reverse cur ++ t = u ++ l ++ v.
Proof.
  revert t cur. induction n as [|n IH]; intros t cur Hn Hin.
  - destruct t; [|simpl in Hn; lia]. simpl in Hin.
    destruct cur as [|c cur]; [by apply elem_of_nil in Hin|].
    apply list_elem_of_singleton in Hin as ->. exists [], []. by rewrite app_nil_r.
  - destruct t as [|c t].
    + simpl in Hin. destruct cur as [|c cur]; [by apply elem_of_nil in Hin|].
      apply list_elem_of_singleton in Hin as ->. exists [], []. by rewrite app_nil_r.
    + simpl in Hn. destruct (is_linebreak c) eqn:Hc.
      * rewrite splitlines_from_break in Hin by done.
        apply elem_of_cons in Hin as [->|Hin]; [by exists [], (c :: t)|].
        destruct (after_break_split c t) as (sep & Ht & Hle).
        apply IH in Hin as (u & v & Huv); [|lia].
        rewrite reverse_nil in Huv. simpl in Huv.
        exists (reverse cur ++ c :: sep ++ u), v.
        assert (Ht' : t = sep ++ u ++ l ++ v) by (rewrite <- Huv; exact Ht).
        rewrite Ht'. clear. rewrite <- !app_assoc. simpl. by rewrite <- !app_assoc.
      * rewrite splitlines_from_char in Hin by done.
        apply IH in Hin as (u & v & Huv); [|lia].
        exists u, v. rewrite <- Huv. by rewrite reverse_cons, <- app_assoc.
Qed.

Lemma line_matches_iff (marker text : str) :
  marker <> [] -> one_line marker ->
  (exists line, line ∈ splitlines text /\ contains marker line = true) <->
  contains marker text = true.
Proof.
  intros Hne Hm. split.
  - intros (line & Hin & (u & v & ->)%contains_iff_split).
    apply (lines_are_substrings (length text)) in Hin as (u' & v' & Ht); [|done].
    rewrite reverse_nil in Ht. simpl in Ht.
    apply contains_iff_split. exists (u' ++ u), (v ++ v').
    rewrite Ht. by rewrite <- !app_assoc.
  - intros (u & v & ->)%contains_iff_split.
    by apply (segment_in_line (length u)).
Qed.

Lemma findContext_marker_in_text (path : string) (marker text : str) (w : world) :
  marker <> [] -> one_line marker ->
  files w !! path = Some (Chars text) ->
  contains marker text = true ->
  exists i, first_match marker (splitlines text) i /\
            findContext path marker w = window (splitlines text) (Z.of_nat i) w.
Proof.
  intros Hne Hm Hf Hc.
  apply line_matches_iff in Hc as (line & Hin & Hl); [|done..].
  destruct (first_match_or_none marker (splitlines text)) as [[i Hfirst]|Hnone].
  - exists i. split; [done|].
    by rewrite (findContext_run _ _ _ _ Hf), (scan_first_match _ _ _ Hfirst).
  - rewrite Forall_forall in Hnone. rewrite (Hnone line Hin) in Hl. done.
Qed.

(** X14. For a marker that is not empty and has no line boundary in it,
    the text decides the run: when the marker occurs somewhere in the
    file, some line contains it and the window loop runs at the first
    such line; when it occurs nowhere, the run prints the notice
    [no match] and ends normally. *)
Theorem findContext_decided_by_text
    (path : string) (marker text : str) (w : world) :
  marker <> [] -> one_line marker ->
  files w !! path = Some (Chars text) ->
  if contains marker text
  then exists i, first_match marker (splitlines text) i /\
                 findContext path marker w = window (splitlines text) (Z.of_nat i) w
  else findContext path marker w = (Ok tt, World (files w) (stdout w ++ [no_match])).
Proof.
  intros Hne Hm Hf. destruct (contains marker text) eqn:Hc.
  - by apply findContext_marker_in_text.
  - rewrite (findContext_run _ _ _ _ Hf).
    rewrite <- (app_nil_r (splitlines text)) at 2.
    rewrite scan_skip; [done|].
    apply Forall_forall. intros line Hin. apply not_true_is_false. intros Hl.
    assert (contains marker text = true); [|congruence].
    apply line_matches_iff; eauto.
Qed.

Example findContext_decided_by_text_witness :
  if contains marker_literal sample_scenario
  then exists i, first_match marker_literal (splitlines sample_scenario) i /\
                 findContext target marker_literal (file_of target sample_scenario) =
                   window (splitlines sample_scenario) (Z.of_nat i)
                     (file_of target sample_scenario)
  else findContext target marker_literal (file_of target sample_scenario) =
         (Ok tt, World (files (file_of target sample_scenario))
                   (stdout (file_of target sample_scenario) ++ [no_match])).
Proof.
  apply (findContext_decided_by_text target marker_literal sample_scenario
           (file_of target sample_scenario)).
  - discriminate.
  - unfold marker_literal, one_line. repeat constructor.
  - reflexivity.
Defined.

(** ** The two scripts together *)

Lemma marker_literal_one_line : marker_literal <> [] /\ one_line marker_literal.
Proof. split; [discriminate | unfold marker_literal, one_line; repeat constructor]. Qed.

Lemma contains_trans (a b c : str) :
  contains a b = true -> contains b c = true -> contains a c = true.
Proof.
  intros (u & v & ->)%contains_iff_split (u' & v' & ->)%contains_iff_split.
  apply contains_iff_split. exists (u' ++ u), (v ++ v'). by rewrite <- !app_assoc.
Qed.

Lemma after_break_app (u v : str) :
  (forall t, v <> LF :: t) ->
  after_break CR (u ++ v) = after_break CR u ++ v.
Proof.
  intros Hv. destruct u as [|x u]; simpl.
  - destruct v as [|y v]; [done|]. simpl.
    destruct (N.eqb_spec y LF) as [->|_]; [by destruct (Hv v) | done].
  - by destruct (x =? LF)%N.
Qed.

(** Reading is done piece by piece, except where a CR at the end of one
    piece meets a LF at the start of the next. *)
Lemma universal_newlines_app (n : nat) (u v : str) :
  length u <= n ->
  (forall t, v <> LF :: t) ->
  universal_newlines (u ++ v) = universal_newlines u ++ universal_newlines v.
Proof.
  intros Hn Hv. revert u Hn. induction n as [|n IH]; intros [|c u] Hn; simpl in Hn;
    try done; try lia.
  cbn [app]. destruct (N.eqb_spec c CR) as [->|Hc].
  - rewrite !universal_newlines_cr, after_break_app by done.
    cbn [app]. f_equal. apply IH. pose proof (after_break_length CR u). lia.
  - rewrite !universal_newlines_cons by done. cbn [app]. f_equal. apply IH. lia.
Qed.

Lemma universal_newlines_block (s v : str) :
  no_cr s -> universal_newlines (s ++ v) = s ++ universal_newlines v.
Proof.
  induction 1 as [|c s Hc _ IH]; [done|].
  cbn [app]. by rewrite universal_newlines_cons, IH.
Qed.

(** A block without carriage return that does not start with a line feed
    and occurs in the characters on disk occurs in the text read. *)
Lemma block_survives_reading (s raw : str) :
  no_cr s -> (forall t, s <> LF :: t) ->
  contains s raw = true -> contains s (universal_newlines raw) = true.
Proof.
  intros Hs Hhead (u & v & ->)%contains_iff_split.
  destruct s as [|c s]; [by apply (contains_occurrence _ _ 0)|].
  rewrite (universal_newlines_app (length u)); [|done|].
  - rewrite universal_newlines_block by done. apply contains_iff_split. eauto.
  - intros t [= -> _]. by destruct (Hhead s).
Qed.

Lemma old_block_survives_reading (raw : str) :
  contains old_block raw = true ->
  contains old_block (universal_newlines raw) = true.
Proof.
  apply block_survives_reading; [apply old_block_no_cr|].
  intros t H. vm_compute in H. discriminate.
Qed.

(** For a marker that lies within a line, the characters on disk and the
    text read agree on whether it occurs. *)
Lemma marker_in_text_as_read (marker raw : str) :
  marker <> [] -> one_line marker ->
  contains marker (universal_newlines raw) = true <-> contains marker raw = true.
Proof.
  intros Hne Hm.
  rewrite <- !line_matches_iff by done.
  by rewrite splitlines_universal_newlines.
Qed.

(** X15. The Line Finder shows the place the Patcher works on.  On a
    file the Patcher accepts (the old block occurs in the characters on
    disk or, with other line endings there, in the text read),
    [show_lines] finds a line with its marker before the run, and it
    finds one again in the patched file after it: in both cases it runs
    the window loop at the first such line instead of printing
    [no match]. *)
Theorem show_lines_finds_the_patch_site (sys : os) (text : str) (w : world) :
  files w !! target = Some (Chars text) ->
  contains old_block text = true \/
    contains old_block (universal_newlines text) = true ->
  (exists i, first_match marker_literal (splitlines text) i /\
             show_lines w = window (splitlines text) (Z.of_nat i) w) /\
  exists (w1 : world) (patched : str) (i1 : nat),
    apply_rect_fix sys w = (Ok tt, w1) /\
    files w1 !! target = Some (Chars patched) /\
    first_match marker_literal (splitlines patched) i1 /\
    show_lines w1 = window (splitlines patched) (Z.of_nat i1) w1.
Proof.
  intros Hf Hc. destruct marker_literal_one_line as [Hne Hm].
  assert (Hread : contains old_block (universal_newlines text) = true).
  { destruct Hc as [Hc|Hc]; [by apply old_block_survives_reading | done]. }
  clear Hc.
  assert (Hold : contains marker_literal old_block = true) by (vm_compute; reflexivity).
  assert (Hnew : contains marker_literal new_block = true) by (vm_compute; reflexivity).
  split.
  - apply findContext_marker_in_text; [done.. |].
    apply marker_in_text_as_read; [done..|].
    by apply (contains_trans _ old_block).
  - set (written := replace1 old_block new_block (universal_newlines text)).
    set (w1 := World (<[target := Chars (to_disk sys written)]> (files w)) (stdout w)).
    assert (Hf1 : files w1 !! target = Some (Chars (to_disk sys written)))
      by (simpl; apply lookup_insert_eq).
    assert (Hp : contains new_block written = true).
    { apply contains_true in Hread as [i F].
      destruct (find_split _ _ _ F) as [Hsplit Hlen].
      apply contains_iff_split. unfold written, replace1. rewrite F. eauto. }
    destruct (findContext_marker_in_text target marker_literal (to_disk sys written) w1)
      as (i1 & Hfirst & Hrun); [done.. | |].
    { apply marker_in_text_as_read; [done..|].
      unfold written. rewrite (patched_reads_back _ _ _ _ new_block_no_cr).
      by apply (contains_trans _ new_block). }
    exists w1, (to_disk sys written), i1.
    split; [unfold apply_rect_fix; by rewrite (patch_run _ _ _ _ _ _ Hf), Hread|].
    done.
Qed.

Example show_lines_finds_the_patch_site_witness :
  (exists i, first_match marker_literal (splitlines sample_crlf_block) i /\
             show_lines (file_of target sample_crlf_block) =
               window (splitlines sample_crlf_block) (Z.of_nat i)
                 (file_of target sample_crlf_block)) /\
  exists (w1 : world) (patched : str) (i1 : nat),
    apply_rect_fix Windows (file_of target sample_crlf_block) = (Ok tt, w1) /\
    files w1 !! target = Some (Chars patched) /\
    first_match marker_literal (splitlines patched) i1 /\
    show_lines w1 = window (splitlines patched) (Z.of_nat i1) w1.
Proof.
  apply (show_lines_finds_the_patch_site Windows sample_crlf_block
           (file_of target sample_crlf_block)).
  - reflexivity.
  - right. vm_compute. reflexivity.
Defined.
